(** * gen_opts.py: generator of option-field boilerplate

    A shallow embedding of [gen_opts.py] and the properties of its
    read / match / transform / emit pipeline.

    Text is modelled the way Python has it: a [str] is a sequence of
    Unicode code points.  The program's effects are its two output streams
    and the exception that may escape [main]; they are threaded through a
    small output-and-exception monad. *)

From Stdlib Require Import String Ascii NArith ZArith Bool List Lia.
Import ListNotations.

Set Implicit Arguments.

(** ** Python strings *)

Definition char := N.
Definition pystr := list char.

Definition chr (a : ascii) : char := N_of_ascii a.

(** A string literal of the source, as code points. *)
Definition str (s : string) : pystr := map chr (list_ascii_of_string s).

Definition LF : char := 10%N.
Definition CR : char := 13%N.

(** [str.isspace] on one code point: the white-space table of CPython
    ([_PyUnicode_IsWhitespace]). *)
Definition isspace (c : char) : bool :=
  ((9 <=? c) && (c <=? 13) || (28 <=? c) && (c <=? 32)
   || (c =? 133) || (c =? 160) || (c =? 5760)
   || (8192 <=? c) && (c <=? 8202)
   || (c =? 8232) || (c =? 8233) || (c =? 8239) || (c =? 8287)
   || (c =? 12288))%N.

Fixpoint lstrip (s : pystr) : pystr :=
  match s with
  | [] => []
  | c :: s' => if isspace c then lstrip s' else s
  end.

Definition rstrip (s : pystr) : pystr := rev (lstrip (rev s)).

(** [line.strip()] *)
Definition strip (s : pystr) : pystr := rstrip (lstrip s).

Definition isascii (s : pystr) : bool := forallb (fun c => c <? 128)%N s.

Definition ascii_lower (c : char) : char :=
  if ((65 <=? c) && (c <=? 90))%N then (c + 32)%N else c.

(** ** The regular-expression engine

    The fragment of [re] that the pattern of the program is written in:
    anchors, literals, a greedy [+] over a character set, capture groups
    and concatenation.  Matching is by backtracking, with the rest of the
    pattern as a continuation. *)

Inductive set_item :=
| Single (c : char)
| Range (lo hi : char).

Definition in_item (c : char) (i : set_item) : bool :=
  match i with
  | Single d => (c =? d)%N
  | Range lo hi => ((lo <=? c) && (c <=? hi))%N
  end.

(** [c] belongs to the set [[...]] *)
Definition in_set (cs : list set_item) (c : char) : bool :=
  existsb (in_item c) cs.

Inductive regex :=
| AtBeginning                       (* ^ *)
| AtEnd                             (* $ *)
| Literal (l : pystr)               (* abc *)
| Plus (cs : list set_item)         (* [...]+ , greedy *)
| Group (r : regex)                 (* (r) *)
| Seq (r1 r2 : regex).              (* r1 r2 *)

(** The state of a match attempt: the position reached, the text from
    there on, and the groups closed so far (in the order of their numbers:
    the groups of the pattern are not nested). *)
Definition found := (list pystr * nat * pystr)%type.
Definition cont := nat -> pystr -> list pystr -> option found.

Fixpoint strip_prefix (l s : pystr) : option pystr :=
  match l, s with
  | [], _ => Some s
  | _ :: _, [] => None
  | a :: l', c :: s' => if (a =? c)%N then strip_prefix l' s' else None
  end.

(** Greedy one-or-more: take as many characters of the set as there are,
    and give them back one at a time while the rest of the pattern fails. *)
Fixpoint plus (cs : list set_item) (pos : nat) (s : pystr)
         (caps : list pystr) (k : cont) : option found :=
  match s with
  | [] => None
  | c :: s' =>
      if in_set cs c then
        match plus cs (S pos) s' caps k with
        | Some r => Some r
        | None => k (S pos) s' caps
        end
      else None
  end.

Fixpoint rmatch (r : regex) (pos : nat) (s : pystr)
         (caps : list pystr) (k : cont) : option found :=
  match r with
  | AtBeginning => if Nat.eqb pos 0 then k pos s caps else None
  | AtEnd =>
      (* the end of the string, or just before a newline that ends it *)
      match s with
      | [] => k pos s caps
      | [c] => if (c =? LF)%N then k pos s caps else None
      | _ => None
      end
  | Literal l =>
      match strip_prefix l s with
      | Some s' => k (pos + length l) s' caps
      | None => None
      end
  | Plus cs => plus cs pos s caps k
  | Group r' =>
      rmatch r' pos s caps
             (fun pos' s' caps' => k pos' s' (caps' ++ [firstn (pos' - pos) s]))
  | Seq r1 r2 =>
      rmatch r1 pos s caps (fun pos' s' caps' => rmatch r2 pos' s' caps' k)
  end.

Definition match_at (r : regex) (pos : nat) (s : pystr) : option found :=
  rmatch r pos s [] (fun pos' s' caps' => Some (caps', pos', s')).

(** [search]: the leftmost position from [pos] on where the pattern
    matches; [s] is the text from [pos] on. *)
Fixpoint search (r : regex) (pos : nat) (s : pystr) : option (nat * found) :=
  match match_at r pos s with
  | Some f => Some (pos, f)
  | None =>
      match s with
      | [] => None
      | _ :: s' => search r (S pos) s'
      end
  end.

(** The loop of [re.split]: the text before each match, then its groups,
    and at the end the text after the last match.  [s] is the text from
    [last] on.  Every match of the pattern of this program is non-empty,
    so each round consumes text and [n] rounds suffice for a text of
    length below [n]. *)
Fixpoint split_loop (n : nat) (r : regex) (last : nat) (s : pystr)
  : list pystr :=
  match n with
  | O => [s]
  | S n' =>
      match search r last s with
      | None => [s]
      | Some (start, (caps, stop, rest)) =>
          firstn (start - last) s :: caps ++ split_loop n' r stop rest
      end
  end.

Definition re_split (r : regex) (s : pystr) : list pystr :=
  split_loop (S (length s)) r 0 s.

(** ** The pattern of the program *)

Definition PREFIX : pystr := str "SPVC_COMPILER_OPTION_".
Definition US : char := chr "_".

Definition upper_set : list set_item := [Range (chr "A") (chr "Z")].
Definition suffix_set : list set_item :=
  [Range (chr "0") (chr "9"); Range (chr "A") (chr "Z"); Single US].

(** ["^(SPVC_COMPILER_OPTION_)([A-Z]+_)([0-9A-Z_]+)$"] *)
Definition PATTERN : regex :=
  Seq AtBeginning
   (Seq (Group (Literal PREFIX))
    (Seq (Group (Seq (Plus upper_set) (Literal [US])))
     (Seq (Group (Plus suffix_set))
      AtEnd))).

(** ** Output streams and exceptions *)

Record streams := { stdout : pystr; stderr : pystr }.

Inductive exn :=
| IndexError
| OSError.

Inductive outcome (A : Type) :=
| Ok (a : A)
| Raised (e : exn).
Arguments Ok {A} a.
Arguments Raised {A} e.

(** A computation writes to the streams and then returns or raises; what
    was written before an exception stays written. *)
Definition py (A : Type) := streams -> streams * outcome A.

Definition ret {A} (a : A) : py A := fun w => (w, Ok a).

Definition raise {A} (e : exn) : py A := fun w => (w, Raised e).

Definition bind {A B} (c : py A) (f : A -> py B) : py B :=
  fun w =>
    match c w with
    | (w', Ok a) => f a w'
    | (w', Raised e) => (w', Raised e)
    end.

Notation "x <- c ;; k" := (bind c (fun x => k))
  (at level 61, c at next level, right associativity).
Notation "c ;; k" := (bind c (fun _ => k))
  (at level 61, right associativity).

(** [print(text)] *)
Definition print (text : pystr) : py unit :=
  fun w => ({| stdout := stdout w ++ text ++ [LF]; stderr := stderr w |}, Ok tt).

(** [print(text, file=sys.stderr)] *)
Definition print_stderr (text : pystr) : py unit :=
  fun w => ({| stdout := stdout w; stderr := stderr w ++ text ++ [LF] |}, Ok tt).

(** [l[i]] for an index that is not negative *)
Definition index {A} (l : list A) (i : nat) : py A :=
  match nth_error l i with
  | Some a => ret a
  | None => raise IndexError
  end.

(** ** Files

    A file system gives the decoded text of the files that can be opened
    for reading.  [open] uses universal newlines: the text that the
    program sees has every [\r\n] and every other [\r] replaced by [\n].
    An open file is the text not read yet.

    The files of this model are the files whose bytes decode as text in
    the encoding that [open] uses.  A file that opens but holds bytes
    that do not decode is not among them: on such a file [readline]
    raises [UnicodeDecodeError] when it reaches the undecodable part, and
    no statement below speaks of that run. *)

Definition filesystem := pystr -> option pystr.

Fixpoint translate (s : pystr) : pystr :=
  match s with
  | [] => []
  | c :: s' =>
      if (c =? CR)%N then
        LF :: match s' with
              | [] => []
              | d :: s'' => if (d =? LF)%N then translate s'' else translate s'
              end
      else c :: translate s'
  end.

Definition open (fs : filesystem) (filename : pystr) : py pystr :=
  match fs filename with
  | Some text => ret (translate text)
  | None => raise OSError
  end.

(** [file.readline()]: the text up to and with the next newline (or up
    to the end of the file), and the file after it; the empty string at
    the end of the file. *)
Fixpoint readline (file : pystr) : pystr * pystr :=
  match file with
  | [] => ([], [])
  | c :: file' =>
      if (c =? LF)%N then ([c], file')
      else let (line, rest) := readline file' in (c :: line, rest)
  end.

(** [file.readlines()]: the lines that successive [readline] calls give. *)
Fixpoint readlines (file : pystr) : list pystr :=
  match file with
  | [] => []
  | c :: file' =>
      if (c =? LF)%N then [c] :: readlines file'
      else match readlines file' with
           | [] => [[c]]
           | line :: lines => (c :: line) :: lines
           end
  end.

(** ** The program *)

Section Program.

(** [str.lower] lower-cases an ASCII string character by character; for
    any other string it applies the case mapping of the Unicode database,
    which is the interpreter's own and is taken as given. *)
Variable unicode_lower : pystr -> pystr.

Definition lower (s : pystr) : pystr :=
  if isascii s then map ascii_lower s else unicode_lower s.

(** The f-string of the source: it begins with a newline and has none at
    its end. *)
Definition template (full name : pystr) : pystr :=
  [LF] ++ str "    ///" ++
  [LF] ++ str "    #[option(" ++ full ++ str ", false)]" ++
  [LF] ++ str "    pub " ++ name ++ str ": bool,".

(** The body of the loop, for one line read. *)
Definition body (line : pystr) : py unit :=
  let full := strip line in
  let matches := re_split PATTERN full in
  suffix <- index matches 3 ;;
  let name := lower suffix in
  let txt := template full name in
  print txt.

(** [while line := file.readline(): ...]; a round reads at least one
    character, so [n] rounds are enough for a file shorter than [n]. *)
Fixpoint while (n : nat) (file : pystr) : py unit :=
  match n with
  | O => ret tt
  | S n' =>
      let (line, file') := readline file in
      match line with
      | [] => ret tt
      | _ :: _ => body line ;; while n' file'
      end
  end.

(** [main()]: its value is [Some 1] for [return 1] and [None] when the
    function falls off its end. *)
Definition main (argv : list pystr) (fs : filesystem) : py (option Z) :=
  match nth_error argv 1 with
  | None =>
      (* sys.argv[1] raises, the bare except catches it *)
      print_stderr (str "Missing file argument.") ;;
      ret (Some 1%Z)
  | Some filename =>
      file <- open fs filename ;;
      while (S (length file)) file ;;
      ret None
  end.

(** What a run of the script leaves behind: the text on the two streams,
    the exception that ended it, if any (the interpreter then prints its
    traceback on the error stream, after [err]), and the exit status. *)
Record process := {
  out : pystr;
  err : pystr;
  uncaught : option exn;
  status : Z
}.

(** [if __name__ == "__main__": main()]: the script calls [main] and drops
    its value.  The interpreter exits with status 0 when the script runs
    to its end and with status 1 when an exception escapes. *)
Definition script (argv : list pystr) (fs : filesystem) : process :=
  match main argv fs {| stdout := []; stderr := [] |} with
  | (w, Ok _) =>
      {| out := stdout w; err := stderr w; uncaught := None; status := 0%Z |}
  | (w, Raised e) =>
      {| out := stdout w; err := stderr w; uncaught := Some e; status := 1%Z |}
  end.

End Program.

(** ** The pattern in the words of the specification

    A token is the prefix, then a category of one or more upper-case ASCII
    letters, then an underscore, then a suffix of one or more upper-case
    ASCII letters, digits and underscores. *)

Definition uppercase (c : char) : bool :=
  ((chr "A" <=? c) && (c <=? chr "Z"))%N.

Definition digit (c : char) : bool :=
  ((chr "0" <=? c) && (c <=? chr "9"))%N.

Definition suffix_char (c : char) : bool :=
  uppercase c || digit c || (c =? chr "_")%N.

Definition option_token (full cat suf : pystr) : Prop :=
  full = PREFIX ++ cat ++ [US] ++ suf /\
  cat <> [] /\ forallb uppercase cat = true /\
  suf <> [] /\ forallb suffix_char suf = true.

Definition matches_pattern (full : pystr) : Prop :=
  exists cat suf, option_token full cat suf.

(** The first maximal run of upper-case letters of a text. *)
Fixpoint upper_run (s : pystr) : pystr :=
  match s with
  | [] => []
  | c :: s' => if uppercase c then c :: upper_run s' else []
  end.

(** The block that one well-formed line adds to the standard output: the
    template and the newline that [print] ends it with. *)
Definition block (full suf : pystr) : pystr :=
  [LF] ++ str "    ///" ++
  [LF] ++ str "    #[option(" ++ full ++ str ", false)]" ++
  [LF] ++ str "    pub " ++ map ascii_lower suf ++ str ": bool," ++ [LF].



(** The category and the suffix of a token, read off its text: the
    category is the first maximal run of upper-case letters after the
    prefix, the suffix is what follows the underscore after it. *)
Definition category_of (full : pystr) : pystr :=
  upper_run (skipn (length PREFIX) full).

Definition suffix_of (full : pystr) : pystr :=
  skipn (length PREFIX + length (category_of full) + 1) full.

(** The block of a well-formed line. *)
Definition line_block (line : pystr) : pystr :=
  block (strip line) (suffix_of (strip line)).

(** The loop body over a list of lines, one after the other. *)
Fixpoint for_lines (unicode_lower : pystr -> pystr) (lines : list pystr)
  : py unit :=
  match lines with
  | [] => ret tt
  | line :: lines' => body unicode_lower line ;; for_lines unicode_lower lines'
  end.

(** ** Sample runs *)

Definition no_streams : streams := {| stdout := []; stderr := [] |}.

(** A file system with one file, [opts.txt]. *)
Definition one_file (text : pystr) : filesystem :=
  fun path => if list_eq_dec N.eq_dec path (str "opts.txt") then Some text else None.

Definition sample_argv : list pystr := [str "gen_opts.py"; str "opts.txt"].

Definition MSL_ARGUMENT_BUFFERS : pystr :=
  str "SPVC_COMPILER_OPTION_MSL_ARGUMENT_BUFFERS".

Definition GLSL_VERSION : pystr :=
  str "SPVC_COMPILER_OPTION_GLSL_VERSION".

(** The sample runs are on ASCII text; there the Unicode case mapping is
    not consulted, and this one stands for it. *)
Definition sample_lower : pystr -> pystr := map ascii_lower.

Definition space : char := chr " ".

(** A line with white space around its token. *)
Definition sample_line : pystr := [space; space] ++ GLSL_VERSION ++ [space; LF].

Definition two_lines : pystr :=
  GLSL_VERSION ++ [CR; LF] ++ MSL_ARGUMENT_BUFFERS ++ [LF].

Definition malformed_second_line : pystr :=
  GLSL_VERSION ++ [LF] ++ str "spvc_compiler_option_glsl_es" ++ [LF]
  ++ MSL_ARGUMENT_BUFFERS ++ [LF].

(** ** Notions for the further properties *)

Definition lowercase (c : char) : bool :=
  ((chr "a" <=? c) && (c <=? chr "z"))%N.

(** The characters of a field name. *)
Definition field_char (c : char) : bool :=
  lowercase c || digit c || (c =? chr "_")%N.

(** A text without a line terminator in it. *)
Definition one_line (s : pystr) : bool :=
  forallb (fun c => negb (c =? CR)%N && negb (c =? LF)%N) s.

(** The text of a list of lines, each ended by [eol]. *)
Definition join_lines (eol : pystr) (lines : list pystr) : pystr :=
  concat (map (fun line => line ++ eol) lines).

(** A file system without any file. *)
Definition no_file : filesystem := fun _ => None.

Definition tab : char := chr "009".

(** * Properties *)

(** ** Lists and strings *)

Lemma strip_prefix_app (l s : pystr) : strip_prefix l (l ++ s) = Some s.
Proof.
  induction l as [|a l IH]; simpl; [reflexivity|].
  now rewrite N.eqb_refl.
Qed.

Lemma strip_prefix_inv (l s s' : pystr) :
  strip_prefix l s = Some s' -> s = l ++ s'.
Proof.
  revert s; induction l as [|a l IH]; intros [|c s]; simpl; intros H;
    try congruence.
  destruct (N.eqb_spec a c); [|discriminate].
  subst; f_equal; auto.
Qed.

Lemma firstn_added (p : nat) (l r : pystr) :
  firstn (p + length l - p) (l ++ r) = l.
Proof.
  replace (p + length l - p) with (length l + 0) by lia.
  rewrite firstn_app_2. simpl. apply app_nil_r.
Qed.

Lemma firstn_span (l r : pystr) (p n : nat) :
  n = p + length l -> firstn (n - p) (l ++ r) = l.
Proof. intros ->. apply firstn_added. Qed.

(** ** The engine on a greedy repeat *)

Section Greedy.

Variable cs : list set_item.
Variable k : cont.
Variable caps : list pystr.

(** The rest of the pattern cannot start with a character of the set. *)
Hypothesis k_stops :
  forall pos c s, in_set cs c = true -> k pos (c :: s) caps = None.

Lemma plus_greedy (run rest : pystr) (pos : nat) :
  run <> [] ->
  forallb (in_set cs) run = true ->
  (forall c rest', rest = c :: rest' -> in_set cs c = false) ->
  plus cs pos (run ++ rest) caps k = k (pos + length run) rest caps.
Proof.
  intros Hne Hall Hrest. revert pos Hne Hall.
  induction run as [|c run' IH]; intros pos Hne Hall; [congruence|].
  simpl in Hall. apply andb_true_iff in Hall as [Hc Hall].
  simpl. rewrite Hc.
  replace (pos + S (length run')) with (S pos + length run') by lia.
  destruct run' as [|d run''].
  - simpl. replace (S (pos + 0)) with (S pos) by lia.
    destruct rest as [|e rest']; simpl; [reflexivity|].
    now rewrite (Hrest e rest' eq_refl).
  - rewrite IH by (auto; congruence).
    destruct (k (S pos + length (d :: run'')) rest caps) eqn:E; [reflexivity|].
    simpl in Hall. apply andb_true_iff in Hall as [Hd _].
    simpl. now rewrite k_stops.
Qed.

End Greedy.

Lemma plus_sound (cs : list set_item) (k : cont) (caps : list pystr)
      (s : pystr) (pos : nat) (f : found) :
  plus cs pos s caps k = Some f ->
  exists run rest,
    s = run ++ rest /\ run <> [] /\ forallb (in_set cs) run = true /\
    k (pos + length run) rest caps = Some f.
Proof.
  revert pos; induction s as [|c s IH]; intros pos; simpl; [discriminate|].
  destruct (in_set cs c) eqn:Hc; [|discriminate].
  destruct (plus cs (S pos) s caps k) eqn:E.
  - intros H; inversion H; subst.
    destruct (IH _ E) as (run & rest & -> & _ & Hall & Hk).
    exists (c :: run), rest. simpl. rewrite Hc, Hall.
    replace (pos + S (length run)) with (S pos + length run) by lia.
    repeat split; auto; congruence.
  - intros H. exists [c], s. simpl.
    replace (pos + 1) with (S pos) by lia.
    rewrite Hc. repeat split; auto; congruence.
Qed.

(** ** The pattern: the engine against the words of the specification *)

Lemma in_upper_set (c : char) : in_set upper_set c = uppercase c.
Proof. unfold in_set, upper_set, uppercase; simpl. apply orb_false_r. Qed.

Lemma in_suffix_set (c : char) : in_set suffix_set c = suffix_char c.
Proof.
  unfold in_set, suffix_set, suffix_char, uppercase, digit, US; simpl.
  rewrite orb_false_r.
  destruct (_ && _), (_ && _), (_ =? _)%N; reflexivity.
Qed.

Lemma forallb_upper_set (s : pystr) :
  forallb (in_set upper_set) s = forallb uppercase s.
Proof. induction s; cbn [forallb]; [|rewrite in_upper_set, IHs]; reflexivity. Qed.

Lemma forallb_suffix_set (s : pystr) :
  forallb (in_set suffix_set) s = forallb suffix_char s.
Proof. induction s; cbn [forallb]; [|rewrite in_suffix_set, IHs]; reflexivity. Qed.

Lemma uppercase_not_US (c : char) : uppercase c = true -> (US =? c)%N = false.
Proof.
  unfold uppercase, US.
  change (chr "A") with 65%N; change (chr "Z") with 90%N;
    change (chr "_") with 95%N.
  intros H. apply andb_true_iff in H as [_ H]. apply N.leb_le in H.
  apply N.eqb_neq. lia.
Qed.

Lemma suffix_char_not_LF (c : char) : suffix_char c = true -> (c =? LF)%N = false.
Proof.
  intros H. apply N.eqb_neq. intros ->. discriminate.
Qed.

(** A token, alone or before a newline that ends the text, is matched as
    a whole, with the prefix, the category with its underscore, and the
    suffix as its three groups. *)
Lemma match_complete (tok cat suf rest : pystr) :
  option_token tok cat suf ->
  rest = [] \/ rest = [LF] ->
  match_at PATTERN 0 (tok ++ rest)
  = Some ([PREFIX; cat ++ [US]; suf], length tok, rest).
Proof.
  intros (-> & Hcat & Hup & Hsuf & Hsc) Hrest.
  assert (Hend : forall c rest', rest = c :: rest' -> suffix_char c = false).
  { intros c rest' E. destruct Hrest as [-> | ->]; [discriminate|].
    inversion E; subst. reflexivity. }
  unfold match_at, PATTERN. cbn [rmatch Nat.eqb].
  rewrite <- app_assoc, strip_prefix_app, firstn_added.
  replace ((cat ++ [US] ++ suf) ++ rest) with (cat ++ US :: suf ++ rest)
    by (now rewrite <- app_assoc).
  rewrite plus_greedy with (run := cat).
  - cbn [strip_prefix]. rewrite N.eqb_refl.
    rewrite plus_greedy with (run := suf).
    + replace (cat ++ US :: suf ++ rest) with ((cat ++ [US]) ++ suf ++ rest)
        by (now rewrite <- app_assoc).
      rewrite (firstn_span (cat ++ [US]) (suf ++ rest))
        by (rewrite length_app; lia).
      rewrite (firstn_span suf rest) by (auto; lia).
      assert (Hlen : 0 + length PREFIX + length cat + length [US] + length suf
                     = length (PREFIX ++ cat ++ [US] ++ suf))
        by (rewrite !length_app; lia).
      rewrite Hlen.
      destruct Hrest as [-> | ->]; [reflexivity|].
      now rewrite N.eqb_refl.
    + intros pos c s Hc. rewrite in_suffix_set in Hc.
      destruct s; [|reflexivity]. now rewrite suffix_char_not_LF.
    + assumption.
    + now rewrite forallb_suffix_set.
    + intros c rest' E. rewrite in_suffix_set. eauto.
  - intros pos c s Hc. rewrite in_upper_set in Hc.
    cbn [strip_prefix]. now rewrite uppercase_not_US.
  - assumption.
  - now rewrite forallb_upper_set.
  - intros c rest' E. inversion E; subst. reflexivity.
Qed.

(** Whatever the engine matches is a token, alone or before a newline that
    ends the text. *)
Lemma match_sound (s : pystr) (f : found) :
  match_at PATTERN 0 s = Some f ->
  exists tok cat suf rest,
    s = tok ++ rest /\ option_token tok cat suf /\ (rest = [] \/ rest = [LF]).
Proof.
  unfold match_at, PATTERN. cbn [rmatch Nat.eqb].
  destruct (strip_prefix PREFIX s) as [s1|] eqn:E1; [|discriminate].
  apply strip_prefix_inv in E1. intros H.
  apply plus_sound in H as (cat & r1 & -> & Hcat & Hup & H).
  destruct (strip_prefix [US] r1) as [s2|] eqn:E2; [|discriminate].
  apply strip_prefix_inv in E2.
  apply plus_sound in H as (suf & rest & -> & Hsuf & Hsc & H).
  exists (PREFIX ++ cat ++ [US] ++ suf), cat, suf, rest.
  rewrite forallb_upper_set in Hup. rewrite forallb_suffix_set in Hsc.
  subst. repeat split; auto.
  - now rewrite <- !app_assoc.
  - destruct rest as [|c [|d rest]]; auto; [|discriminate].
    destruct (N.eqb_spec c LF); [subst; auto | discriminate].
Qed.

Lemma match_not_at_start (pos : nat) (s : pystr) :
  match_at PATTERN (S pos) s = None.
Proof. reflexivity. Qed.

Lemma search_not_at_start (pos : nat) (s : pystr) :
  search PATTERN (S pos) s = None.
Proof.
  revert pos; induction s as [|c s IH]; intros pos;
    cbn [search]; rewrite match_not_at_start; auto.
Qed.

Lemma split_loop_not_at_start (n pos : nat) (s : pystr) :
  split_loop n PATTERN (S pos) s = [s].
Proof.
  destruct n; cbn [split_loop]; [|rewrite search_not_at_start]; reflexivity.
Qed.

Lemma search_at_start (s : pystr) :
  search PATTERN 0 s
  = match match_at PATTERN 0 s with Some f => Some (0, f) | None => None end.
Proof.
  destruct s; cbn [search]; destruct (match_at PATTERN 0 _); auto.
  apply search_not_at_start.
Qed.

Lemma PREFIX_length : length PREFIX = 21.
Proof. reflexivity. Qed.

Lemma option_token_length (tok cat suf : pystr) :
  option_token tok cat suf -> 23 < length tok.
Proof.
  intros (-> & Hcat & _ & Hsuf & _).
  rewrite !length_app, PREFIX_length.
  destruct cat, suf; simpl; try congruence; lia.
Qed.

(** [re.split] on a token: the empty text before the match, the three
    groups, and what follows the match. *)
Lemma re_split_token (tok cat suf rest : pystr) :
  option_token tok cat suf ->
  rest = [] \/ rest = [LF] ->
  re_split PATTERN (tok ++ rest) = [[]; PREFIX; cat ++ [US]; suf; rest].
Proof.
  intros Htok Hrest. unfold re_split. cbn [split_loop].
  rewrite search_at_start, (match_complete Htok Hrest).
  pose proof (option_token_length Htok) as Hlen.
  destruct (length tok) as [|n]; [lia|].
  now rewrite split_loop_not_at_start.
Qed.

(** [re.split] on any other text: the text itself, alone. *)
Lemma re_split_other (s : pystr) :
  match_at PATTERN 0 s = None -> re_split PATTERN s = [s].
Proof.
  intros H. unfold re_split. cbn [split_loop].
  now rewrite search_at_start, H.
Qed.

(** The two cases of [re.split] on the pattern. *)
Lemma re_split_cases (s : pystr) :
  (exists tok cat suf rest,
      s = tok ++ rest /\ option_token tok cat suf /\
      (rest = [] \/ rest = [LF]) /\
      re_split PATTERN s = [[]; PREFIX; cat ++ [US]; suf; rest])
  \/ ((forall tok cat suf rest,
          s = tok ++ rest -> option_token tok cat suf ->
          rest <> [] /\ rest <> [LF])
      /\ re_split PATTERN s = [s]).
Proof.
  destruct (match_at PATTERN 0 s) as [f|] eqn:E.
  - left. destruct (match_sound _ E) as (tok & cat & suf & rest & -> & Ht & Hr).
    exists tok, cat, suf, rest.
    split; [reflexivity|]. do 2 (split; [assumption|]).
    now apply re_split_token.
  - right. split; [|now apply re_split_other].
    intros tok cat suf rest -> Ht.
    split; intros ->.
    + rewrite (match_complete Ht (or_introl eq_refl)) in E. discriminate.
    + rewrite (match_complete Ht (or_intror eq_refl)) in E. discriminate.
Qed.

(** ** Stripping *)

Lemma lstrip_head (s s' : pystr) (c : char) :
  lstrip s = c :: s' -> isspace c = false.
Proof.
  induction s as [|d s IH]; simpl; [discriminate|].
  destruct (isspace d) eqn:E; auto.
  intros H; inversion H; subst; assumption.
Qed.

Lemma strip_last (s t : pystr) (c : char) :
  strip s = t ++ [c] -> isspace c = false.
Proof.
  unfold strip, rstrip. intros H.
  apply (f_equal (@rev char)) in H.
  rewrite rev_involutive, rev_app_distr in H. simpl in H.
  eapply lstrip_head; eauto.
Qed.

(** A stripped text does not end with a newline: on it, [$] is the end of
    the text. *)
Lemma strip_not_LF (s t : pystr) : strip s <> t ++ [LF].
Proof. intros H. apply strip_last in H. discriminate. Qed.

(** ** Reading lines *)

Lemma readline_eq (c : char) (file : pystr) :
  readline (c :: file)
  = if (c =? LF)%N then ([c], file)
    else let (line, rest) := readline file in (c :: line, rest).
Proof. reflexivity. Qed.

Lemma readlines_eq (c : char) (file : pystr) :
  readlines (c :: file)
  = if (c =? LF)%N then [c] :: readlines file
    else match readlines file with
         | [] => [[c]]
         | line :: lines => (c :: line) :: lines
         end.
Proof. reflexivity. Qed.

Lemma readline_cons (c : char) (file : pystr) :
  exists line rest,
    readline (c :: file) = (line, rest) /\ line <> [] /\
    length rest <= length file /\
    readlines (c :: file) = line :: readlines rest.
Proof.
  revert c; induction file as [|d file IH]; intros c.
  - simpl. destruct (c =? LF)%N; eexists _, _; repeat split; auto; congruence.
  - rewrite readline_eq, readlines_eq.
    destruct (c =? LF)%N.
    + eexists _, _; repeat split; auto; congruence.
    + destruct (IH d) as (line & rest & -> & Hne & Hlen & ->).
      eexists _, _; repeat split; auto; [congruence|simpl; lia].
Qed.

Lemma readlines_nonempty (file : pystr) : Forall (fun l => l <> []) (readlines file).
Proof.
  remember (length file) as n eqn:Hn.
  revert file Hn. induction n as [n IH] using lt_wf_ind. intros [|c file] Hn.
  - constructor.
  - destruct (readline_cons c file) as (line & rest & _ & Hne & Hlen & ->).
    constructor; auto. apply (IH (length rest)); simpl in *; auto; lia.
Qed.

(** ** The parts of a token are read off its text *)

Lemma upper_run_app (cat rest : pystr) :
  forallb uppercase cat = true ->
  upper_run (cat ++ US :: rest) = cat.
Proof.
  induction cat as [|c cat IH]; simpl; [reflexivity|].
  intros H. apply andb_true_iff in H as [Hc H].
  now rewrite Hc, IH.
Qed.

Lemma option_token_parts (full cat suf : pystr) :
  option_token full cat suf ->
  cat = category_of full /\ suf = suffix_of full.
Proof.
  intros (-> & _ & Hup & _ & _).
  assert (Hcat : category_of (PREFIX ++ cat ++ [US] ++ suf) = cat).
  { unfold category_of. rewrite skipn_app, skipn_all, Nat.sub_diag.
    cbn [skipn app]. now apply upper_run_app. }
  split; [now rewrite Hcat|].
  unfold suffix_of. rewrite Hcat.
  replace (PREFIX ++ cat ++ [US] ++ suf) with ((PREFIX ++ cat ++ [US]) ++ suf)
    by (now rewrite <- !app_assoc).
  replace (length PREFIX + length cat + 1) with (length (PREFIX ++ cat ++ [US]))
    by (rewrite !length_app; simpl; lia).
  now rewrite skipn_app, skipn_all, Nat.sub_diag.
Qed.

Lemma suffix_isascii (suf : pystr) :
  forallb suffix_char suf = true -> isascii suf = true.
Proof.
  unfold isascii. induction suf as [|c suf IH]; simpl; [reflexivity|].
  intros H. apply andb_true_iff in H as [Hc H]. rewrite IH by assumption.
  rewrite andb_true_r. apply N.ltb_lt.
  unfold suffix_char, uppercase, digit in Hc.
  change (chr "A") with 65%N in Hc; change (chr "Z") with 90%N in Hc;
    change (chr "0") with 48%N in Hc; change (chr "9") with 57%N in Hc;
    change (chr "_") with 95%N in Hc.
  repeat (apply orb_true_iff in Hc as [Hc | Hc]).
  - apply andb_true_iff in Hc as [_ Hc]. apply N.leb_le in Hc. lia.
  - apply andb_true_iff in Hc as [_ Hc]. apply N.leb_le in Hc. lia.
  - apply N.eqb_eq in Hc. lia.
Qed.

(** ** The program, line by line *)

Section Lines.

Variable unicode_lower : pystr -> pystr.

Lemma lower_suffix (suf : pystr) :
  forallb suffix_char suf = true -> lower unicode_lower suf = map ascii_lower suf.
Proof. intros H. unfold lower. now rewrite suffix_isascii. Qed.

Lemma template_block (full suf : pystr) :
  template full (map ascii_lower suf) ++ [LF] = block full suf.
Proof. unfold template, block. now rewrite <- !app_assoc. Qed.

Lemma body_token (line cat suf : pystr) (w : streams) :
  option_token (strip line) cat suf ->
  body unicode_lower line w
  = ({| stdout := stdout w ++ block (strip line) suf; stderr := stderr w |},
     Ok tt).
Proof.
  intros Ht. unfold body.
  pose proof (re_split_token Ht (or_introl eq_refl)) as Hs.
  rewrite app_nil_r in Hs. rewrite Hs.
  unfold index, bind, ret, print. cbn [nth_error].
  destruct Ht as (_ & _ & _ & _ & Hsc).
  now rewrite lower_suffix, template_block.
Qed.

Lemma re_split_malformed (line : pystr) :
  ~ matches_pattern (strip line) ->
  re_split PATTERN (strip line) = [strip line].
Proof.
  intros Hno.
  destruct (re_split_cases (strip line))
    as [(tok & cat & suf & rest & E & Ht & [-> | ->] & _) | [_ H]]; auto.
  - rewrite app_nil_r in E. subst tok. exfalso. apply Hno. now exists cat, suf.
  - exfalso. exact (strip_not_LF _ _ E).
Qed.

Lemma body_malformed (line : pystr) (w : streams) :
  ~ matches_pattern (strip line) -> body unicode_lower line w = (w, Raised IndexError).
Proof.
  intros Hno. unfold body. now rewrite re_split_malformed.
Qed.

Lemma while_for_lines (n : nat) (file : pystr) :
  length file < n -> while unicode_lower n file = for_lines unicode_lower (readlines file).
Proof.
  revert file; induction n as [|n IH]; intros file Hlen; [lia|].
  destruct file as [|c file]; [reflexivity|].
  destruct (readline_cons c file) as (line & rest & E & Hne & Hle & ->).
  cbn [while for_lines]. rewrite E.
  destruct line; [congruence|].
  rewrite IH by (simpl in Hlen; lia). reflexivity.
Qed.

Lemma for_lines_good (lines : list pystr) (w : streams) :
  Forall (fun line => matches_pattern (strip line)) lines ->
  for_lines unicode_lower lines w
  = ({| stdout := stdout w ++ concat (map line_block lines);
        stderr := stderr w |}, Ok tt).
Proof.
  intros H. revert w. induction H as [|line lines (cat & suf & Ht) _ IH]; intros w.
  - simpl. rewrite app_nil_r. now destruct w.
  - cbn [for_lines map concat]. unfold bind.
    rewrite (body_token _ w Ht), IH. cbn [stdout stderr].
    unfold line_block. destruct (option_token_parts Ht) as [_ <-].
    now rewrite <- app_assoc.
Qed.

Lemma for_lines_first_malformed (good rest : list pystr) (bad : pystr)
      (w : streams) :
  Forall (fun line => matches_pattern (strip line)) good ->
  ~ matches_pattern (strip bad) ->
  for_lines unicode_lower (good ++ bad :: rest) w
  = ({| stdout := stdout w ++ concat (map line_block good);
        stderr := stderr w |}, Raised IndexError).
Proof.
  intros H Hbad. revert w.
  induction H as [|line lines (cat & suf & Ht) _ IH]; intros w.
  - cbn [app for_lines map concat]. unfold bind.
    rewrite body_malformed by assumption. rewrite app_nil_r. now destruct w.
  - cbn [app for_lines map concat]. unfold bind.
    rewrite (body_token _ w Ht), IH. cbn [stdout stderr].
    unfold line_block. destruct (option_token_parts Ht) as [_ <-].
    now rewrite <- app_assoc.
Qed.

End Lines.

(** ** The program as a whole *)

Section Runs.

Variable unicode_lower : pystr -> pystr.

Lemma re_split_no_match (s : pystr) :
  ~ matches_pattern s -> (forall t, s <> t ++ [LF]) ->
  re_split PATTERN s = [s].
Proof.
  intros Hno Hlf.
  destruct (re_split_cases s)
    as [(tok & cat & suf & rest & E & Ht & [-> | ->] & _) | [_ H]]; auto.
  - rewrite app_nil_r in E. subst tok. exfalso. apply Hno. now exists cat, suf.
  - exfalso. exact (Hlf _ E).
Qed.

Lemma matches_pattern_split (s : pystr) :
  matches_pattern s -> length (re_split PATTERN s) = 5.
Proof.
  intros (cat & suf & Ht).
  pose proof (re_split_token Ht (or_introl eq_refl)) as Hs.
  rewrite app_nil_r in Hs. now rewrite Hs.
Qed.

Lemma main_with_file (argv : list pystr) (fs : filesystem)
      (path text : pystr) (w : streams) :
  nth_error argv 1 = Some path ->
  fs path = Some text ->
  main unicode_lower argv fs w
  = match for_lines unicode_lower (readlines (translate text)) w with
    | (w', Ok _) => (w', Ok None)
    | (w', Raised e) => (w', Raised e)
    end.
Proof.
  intros Harg Hfs. unfold main, open. rewrite Harg, Hfs.
  unfold bind at 1. unfold ret at 1. unfold bind.
  rewrite while_for_lines by lia. 
  destruct (for_lines _ _ w) as [w' [[]|e]]; reflexivity.
Qed.




(** ** The claims *)

(** C1 (well-formed round trip): for a line whose stripped text is the
    prefix, a category of upper-case letters, an underscore and a suffix
    of upper-case letters, digits and underscores, the third capture is
    the suffix; the field name is the suffix with every letter from A to
    Z replaced by the letter 32 code points above it (a to z) and every
    other character kept; and the line adds to the standard output a
    newline, the line of three slashes, the [option] line that holds the
    stripped line, byte for byte, between its parenthesis and its comma,
    and the [pub] line that holds that field name, each ended by a
    newline; nothing goes to the error stream. *)
Theorem well_formed_round_trip (line cat suf : pystr) (w : streams) :
  option_token (strip line) cat suf ->
  nth_error (re_split PATTERN (strip line)) 3 = Some suf /\
  lower unicode_lower suf
  = map (fun c => if ((chr "A" <=? c) && (c <=? chr "Z"))%N
                  then (c + 32)%N else c) suf /\
  body unicode_lower line w
  = ({| stdout := stdout w ++
          [LF] ++ str "    ///" ++
          [LF] ++ str "    #[option(" ++ strip line ++ str ", false)]" ++
          [LF] ++ str "    pub "
               ++ map (fun c => if ((chr "A" <=? c) && (c <=? chr "Z"))%N
                                then (c + 32)%N else c) suf
               ++ str ": bool," ++ [LF];
        stderr := stderr w |}, Ok tt).
Proof.
  intros Ht. split; [|split].
  - pose proof (re_split_token Ht (or_introl eq_refl)) as Hs.
    rewrite app_nil_r in Hs. now rewrite Hs.
  - destruct Ht as (_ & _ & _ & _ & Hsc).
    rewrite lower_suffix by assumption. reflexivity.
  - rewrite (body_token unicode_lower _ w Ht). reflexivity.
Qed.

(** C2 (malformed line): when the lines of the file are well-formed lines,
    then a line whose stripped text does not match the pattern, then any
    lines at all, [re.split] gives no element at index 3 for that line,
    [IndexError] escapes [main], and the run ends with status 1 having
    written the blocks of the lines before the malformed one and nothing
    else: the lines after it play no part. *)
Theorem first_malformed_line_aborts
        (argv : list pystr) (fs : filesystem) (path text : pystr)
        (good rest : list pystr) (bad : pystr) :
  nth_error argv 1 = Some path ->
  fs path = Some text ->
  readlines (translate text) = good ++ bad :: rest ->
  Forall (fun line => matches_pattern (strip line)) good ->
  ~ matches_pattern (strip bad) ->
  nth_error (re_split PATTERN (strip bad)) 3 = None /\
  main unicode_lower argv fs no_streams
  = ({| stdout := concat (map line_block good); stderr := [] |},
     Raised IndexError) /\
  script unicode_lower argv fs
  = {| out := concat (map line_block good); err := [];
       uncaught := Some IndexError; status := 1 |}.
Proof.
  intros Harg Hfs Hlines Hgood Hbad.
  assert (Hmain : main unicode_lower argv fs no_streams
                  = ({| stdout := concat (map line_block good); stderr := [] |},
                     Raised IndexError)).
  { rewrite (main_with_file _ _ no_streams Harg Hfs), Hlines.
    now rewrite for_lines_first_malformed. }
  split; [|split; auto].
  - now rewrite re_split_malformed.
  - unfold script. fold no_streams. now rewrite Hmain.
Qed.

(** C3 (missing argument), on the code: with no path argument [main]
    prints the diagnostic and a newline on the error stream, prints
    nothing on the standard output, opens no file and returns 1; the
    script drops that value, and the exit status of the run is 0. *)
Theorem missing_argument_run (prog : pystr) (fs : filesystem) :
  main unicode_lower [prog] fs no_streams
  = ({| stdout := []; stderr := str "Missing file argument." ++ [LF] |},
     Ok (Some 1%Z)) /\
  script unicode_lower [prog] fs
  = {| out := []; err := str "Missing file argument." ++ [LF];
       uncaught := None; status := 0 |}.
Proof. split; reflexivity. Qed.

(** C4 (order preservation): when every one of the N lines of the file
    matches the pattern once stripped, the run ends normally and the
    standard output is the concatenation of N blocks, the i-th of which
    is the block of the i-th line, for every i: no block is moved, merged
    or left out. *)
Theorem blocks_in_input_order
        (argv : list pystr) (fs : filesystem) (path text : pystr) :
  nth_error argv 1 = Some path ->
  fs path = Some text ->
  Forall (fun line => matches_pattern (strip line)) (readlines (translate text)) ->
  let lines := readlines (translate text) in
  let blocks := map line_block lines in
  script unicode_lower argv fs
  = {| out := concat blocks; err := []; uncaught := None; status := 0 |} /\
  length blocks = length lines /\
  forall i line, nth_error lines i = Some line ->
                 nth_error blocks i = Some (line_block line).
Proof.
  intros Harg Hfs Hall lines blocks. split; [|split].
  - unfold script. fold no_streams.
    rewrite (main_with_file _ _ no_streams Harg Hfs).
    now rewrite for_lines_good.
  - apply length_map.
  - intros i line Hi. unfold blocks. now rewrite nth_error_map, Hi.
Qed.


(** C6 (scenario A): for a file whose only line strips to
    SPVC_COMPILER_OPTION_MSL_ARGUMENT_BUFFERS, the captures are the prefix,
    the category MSL_ and the suffix ARGUMENT_BUFFERS, and the run writes
    one block, with that token as FULL and argument_buffers as the field
    name, and ends with status 0. *)
Theorem scenario_msl_argument_buffers
        (argv : list pystr) (fs : filesystem) (path text line : pystr) :
  nth_error argv 1 = Some path ->
  fs path = Some text ->
  readlines (translate text) = [line] ->
  strip line = MSL_ARGUMENT_BUFFERS ->
  re_split PATTERN (strip line)
  = [[]; str "SPVC_COMPILER_OPTION_"; str "MSL_"; str "ARGUMENT_BUFFERS"; []] /\
  script unicode_lower argv fs
  = {| out :=
         [LF] ++ str "    ///" ++
         [LF] ++ str "    #[option(SPVC_COMPILER_OPTION_MSL_ARGUMENT_BUFFERS, false)]" ++
         [LF] ++ str "    pub argument_buffers: bool," ++ [LF];
       err := []; uncaught := None; status := 0 |}.
Proof.
  intros Harg Hfs Hlines Hline. split.
  - rewrite Hline. vm_compute. reflexivity.
  - assert (Ht : option_token (strip line) (str "MSL") (str "ARGUMENT_BUFFERS")).
    { rewrite Hline. repeat split; try discriminate; reflexivity. }
    unfold script. fold no_streams.
    rewrite (main_with_file _ _ no_streams Harg Hfs), Hlines.
    rewrite for_lines_good by (repeat constructor; now exists (str "MSL"), (str "ARGUMENT_BUFFERS")).
    cbn [map concat stdout stderr no_streams app].
    unfold line_block. rewrite Hline. vm_compute. reflexivity.
Qed.

(** C7 (blank line): a line that strips to the empty string does not
    match the pattern: [re.split] gives the empty string alone, the index
    3 raises [IndexError], and the line adds nothing to either stream. *)
Theorem blank_line_is_malformed (line : pystr) (w : streams) :
  strip line = [] ->
  ~ matches_pattern (strip line) /\
  re_split PATTERN (strip line) = [[]] /\
  body unicode_lower line w = (w, Raised IndexError).
Proof.
  intros Hline.
  assert (Hno : ~ matches_pattern (strip line)).
  { rewrite Hline. intros H. apply matches_pattern_split in H. discriminate. }
  split; [assumption|]. split.
  - now rewrite Hline.
  - now apply body_malformed.
Qed.

(** C8 (scenario D): for a path argument that names an empty file, [main]
    returns without a value, nothing is written to either stream, and the
    run ends with status 0. *)
Theorem empty_file_run (argv : list pystr) (fs : filesystem) (path : pystr) :
  nth_error argv 1 = Some path ->
  fs path = Some [] ->
  main unicode_lower argv fs no_streams = (no_streams, Ok None) /\
  script unicode_lower argv fs
  = {| out := []; err := []; uncaught := None; status := 0 |}.
Proof.
  intros Harg Hfs.
  assert (Hmain : main unicode_lower argv fs no_streams = (no_streams, Ok None)).
  { now rewrite (main_with_file _ _ no_streams Harg Hfs). }
  split; [assumption|].
  unfold script. fold no_streams. now rewrite Hmain.
Qed.

(** C9 (unique decomposition): a text that matches the pattern does so in
    one way only.  Its category is the first maximal run of upper-case
    letters after the prefix, its suffix is all that follows the
    underscore after that run, any other decomposition of the text is the
    same one, and these are the captures that [re.split] gives.  A prefix
    followed by one run of upper-case letters and a last underscore, with
    an empty suffix, does not match. *)
Theorem decomposition_unique (full cat suf : pystr) :
  option_token full cat suf ->
  cat = category_of full /\
  suf = suffix_of full /\
  (forall cat' suf', option_token full cat' suf' -> cat' = cat /\ suf' = suf) /\
  re_split PATTERN full = [[]; PREFIX; cat ++ [US]; suf; []] /\
  (forall run, forallb uppercase run = true ->
     ~ matches_pattern (PREFIX ++ run ++ [US]) /\
     re_split PATTERN (PREFIX ++ run ++ [US]) = [PREFIX ++ run ++ [US]]).
Proof.
  intros Ht.
  destruct (option_token_parts Ht) as [Hcat Hsuf].
  split; [assumption|]. split; [assumption|]. split; [|split].
  - intros cat' suf' Ht'.
    destruct (option_token_parts Ht') as [-> ->]. now split.
  - pose proof (re_split_token Ht (or_introl eq_refl)) as Hs.
    now rewrite app_nil_r in Hs.
  - intros run Hrun.
    assert (Hno : ~ matches_pattern (PREFIX ++ run ++ [US])).
    { intros (c & s & E & _ & Hup & Hs & _).
      apply app_inv_head in E.
      assert (Hc : run = c).
      { rewrite <- (upper_run_app run [] Hrun), <- (upper_run_app c s Hup).
        now rewrite E. }
      subst c. apply app_inv_head in E. inversion E; subst. congruence. }
    split; [assumption|].
    apply re_split_no_match; [assumption|].
    intros t E. rewrite !app_assoc in E.
    apply app_inj_tail in E as [_ E]. discriminate.
Qed.

(** C10 (extra arguments): two runs whose argument lists agree at index 1
    (both without a path, or both with the same one), on file systems that
    agree on that path, give the same result of [main] from the same
    streams and the same run: output, error output, exception and status.
    The arguments after the first play no part. *)
Theorem extra_arguments_ignored
        (argv1 argv2 : list pystr) (fs1 fs2 : filesystem) :
  nth_error argv1 1 = nth_error argv2 1 ->
  (forall path, nth_error argv1 1 = Some path -> fs1 path = fs2 path) ->
  (forall w, main unicode_lower argv1 fs1 w = main unicode_lower argv2 fs2 w) /\
  script unicode_lower argv1 fs1 = script unicode_lower argv2 fs2.
Proof.
  intros Harg Hfs.
  assert (Hmain : forall w,
             main unicode_lower argv1 fs1 w = main unicode_lower argv2 fs2 w).
  { intros w. unfold main, open. rewrite <- Harg.
    destruct (nth_error argv1 1) as [path|]; [|reflexivity].
    now rewrite (Hfs path eq_refl). }
  split; [assumption|].
  unfold script. now rewrite Hmain.
Qed.

End Runs.

(** ** The claims on sample runs *)

Lemma GLSL_VERSION_token (line : pystr) :
  strip line = GLSL_VERSION ->
  option_token (strip line) (str "GLSL") (str "VERSION").
Proof.
  intros ->. repeat split; try discriminate; reflexivity.
Defined.

Lemma MSL_ARGUMENT_BUFFERS_token (line : pystr) :
  strip line = MSL_ARGUMENT_BUFFERS ->
  option_token (strip line) (str "MSL") (str "ARGUMENT_BUFFERS").
Proof.
  intros ->. repeat split; try discriminate; reflexivity.
Defined.

Lemma well_formed_round_trip_witness :
  option_token (strip sample_line) (str "GLSL") (str "VERSION") /\
  (nth_error (re_split PATTERN (strip sample_line)) 3 = Some (str "VERSION") /\
   lower sample_lower (str "VERSION")
   = map (fun c => if ((chr "A" <=? c) && (c <=? chr "Z"))%N
                   then (c + 32)%N else c) (str "VERSION") /\
   body sample_lower sample_line no_streams
   = ({| stdout := stdout no_streams ++
           [LF] ++ str "    ///" ++
           [LF] ++ str "    #[option(" ++ strip sample_line ++ str ", false)]" ++
           [LF] ++ str "    pub "
                ++ map (fun c => if ((chr "A" <=? c) && (c <=? chr "Z"))%N
                                 then (c + 32)%N else c) (str "VERSION")
                ++ str ": bool," ++ [LF];
         stderr := stderr no_streams |}, Ok tt)).
Proof.
  assert (H : option_token (strip sample_line) (str "GLSL") (str "VERSION"))
    by (apply GLSL_VERSION_token; reflexivity).
  split; [exact H|].
  exact (@well_formed_round_trip sample_lower sample_line _ _ no_streams H).
Defined.

(** The same run with every character written out: the stripped line
    stands in the [option] line and the field name is [version]. *)
Lemma sample_line_block :
  strip sample_line = str "SPVC_COMPILER_OPTION_GLSL_VERSION" /\
  body sample_lower sample_line no_streams
  = ({| stdout :=
          [LF] ++ str "    ///" ++
          [LF] ++ str "    #[option(SPVC_COMPILER_OPTION_GLSL_VERSION, false)]" ++
          [LF] ++ str "    pub version: bool," ++ [LF];
        stderr := [] |}, Ok tt).
Proof. split; vm_compute; reflexivity. Qed.

Lemma first_malformed_line_aborts_witness :
  nth_error sample_argv 1 = Some (str "opts.txt") /\
  one_file malformed_second_line (str "opts.txt") = Some malformed_second_line /\
  readlines (translate malformed_second_line)
  = [GLSL_VERSION ++ [LF]]
      ++ (str "spvc_compiler_option_glsl_es" ++ [LF])
      :: [MSL_ARGUMENT_BUFFERS ++ [LF]] /\
  Forall (fun line => matches_pattern (strip line)) [GLSL_VERSION ++ [LF]] /\
  ~ matches_pattern (strip (str "spvc_compiler_option_glsl_es" ++ [LF])) /\
  (nth_error (re_split PATTERN (strip (str "spvc_compiler_option_glsl_es" ++ [LF]))) 3
   = None /\
   main sample_lower sample_argv (one_file malformed_second_line) no_streams
   = ({| stdout := concat (map line_block [GLSL_VERSION ++ [LF]]); stderr := [] |},
      Raised IndexError) /\
   script sample_lower sample_argv (one_file malformed_second_line)
   = {| out := concat (map line_block [GLSL_VERSION ++ [LF]]); err := [];
        uncaught := Some IndexError; status := 1 |}).
Proof.
  assert (H1 : nth_error sample_argv 1 = Some (str "opts.txt")) by reflexivity.
  assert (H2 : one_file malformed_second_line (str "opts.txt")
               = Some malformed_second_line) by reflexivity.
  assert (H3 : readlines (translate malformed_second_line)
               = [GLSL_VERSION ++ [LF]]
                   ++ (str "spvc_compiler_option_glsl_es" ++ [LF])
                   :: [MSL_ARGUMENT_BUFFERS ++ [LF]]) by reflexivity.
  assert (H4 : Forall (fun line => matches_pattern (strip line))
                      [GLSL_VERSION ++ [LF]]).
  { constructor; [|constructor].
    exists (str "GLSL"), (str "VERSION").
    apply GLSL_VERSION_token; reflexivity. }
  assert (H5 : ~ matches_pattern
                 (strip (str "spvc_compiler_option_glsl_es" ++ [LF]))).
  { intros H. apply matches_pattern_split in H. vm_compute in H. discriminate. }
  repeat (split; [assumption|]).
  exact (@first_malformed_line_aborts sample_lower
            sample_argv (one_file malformed_second_line) _ _ _ _ _
            H1 H2 H3 H4 H5).
Defined.

Lemma two_lines_read :
  readlines (translate two_lines)
  = [GLSL_VERSION ++ [LF]; MSL_ARGUMENT_BUFFERS ++ [LF]].
Proof. reflexivity. Defined.

Lemma two_lines_match :
  Forall (fun line => matches_pattern (strip line))
         (readlines (translate two_lines)).
Proof.
  rewrite two_lines_read.
  constructor; [|constructor; [|constructor]].
  - exists (str "GLSL"), (str "VERSION"). apply GLSL_VERSION_token; reflexivity.
  - exists (str "MSL"), (str "ARGUMENT_BUFFERS").
    apply MSL_ARGUMENT_BUFFERS_token; reflexivity.
Defined.

Lemma blocks_in_input_order_witness :
  nth_error sample_argv 1 = Some (str "opts.txt") /\
  one_file two_lines (str "opts.txt") = Some two_lines /\
  Forall (fun line => matches_pattern (strip line))
         (readlines (translate two_lines)) /\
  (let lines := readlines (translate two_lines) in
   let blocks := map line_block lines in
   script sample_lower sample_argv (one_file two_lines)
   = {| out := concat blocks; err := []; uncaught := None; status := 0 |} /\
   length blocks = length lines /\
   forall i line, nth_error lines i = Some line ->
                  nth_error blocks i = Some (line_block line)).
Proof.
  assert (H1 : nth_error sample_argv 1 = Some (str "opts.txt")) by reflexivity.
  assert (H2 : one_file two_lines (str "opts.txt") = Some two_lines)
    by reflexivity.
  repeat (split; [assumption || exact two_lines_match|]).
  exact (@blocks_in_input_order sample_lower sample_argv (one_file two_lines)
           _ _ H1 H2 two_lines_match).
Defined.


Lemma scenario_msl_argument_buffers_witness :
  nth_error sample_argv 1 = Some (str "opts.txt") /\
  one_file (MSL_ARGUMENT_BUFFERS ++ [LF]) (str "opts.txt")
  = Some (MSL_ARGUMENT_BUFFERS ++ [LF]) /\
  readlines (translate (MSL_ARGUMENT_BUFFERS ++ [LF]))
  = [MSL_ARGUMENT_BUFFERS ++ [LF]] /\
  strip (MSL_ARGUMENT_BUFFERS ++ [LF]) = MSL_ARGUMENT_BUFFERS /\
  (re_split PATTERN (strip (MSL_ARGUMENT_BUFFERS ++ [LF]))
   = [[]; str "SPVC_COMPILER_OPTION_"; str "MSL_"; str "ARGUMENT_BUFFERS"; []] /\
   script sample_lower sample_argv (one_file (MSL_ARGUMENT_BUFFERS ++ [LF]))
   = {| out :=
          [LF] ++ str "    ///" ++
          [LF] ++ str "    #[option(SPVC_COMPILER_OPTION_MSL_ARGUMENT_BUFFERS, false)]" ++
          [LF] ++ str "    pub argument_buffers: bool," ++ [LF];
        err := []; uncaught := None; status := 0 |}).
Proof.
  assert (H1 : nth_error sample_argv 1 = Some (str "opts.txt")) by reflexivity.
  assert (H2 : one_file (MSL_ARGUMENT_BUFFERS ++ [LF]) (str "opts.txt")
               = Some (MSL_ARGUMENT_BUFFERS ++ [LF])) by reflexivity.
  assert (H3 : readlines (translate (MSL_ARGUMENT_BUFFERS ++ [LF]))
               = [MSL_ARGUMENT_BUFFERS ++ [LF]]) by reflexivity.
  assert (H4 : strip (MSL_ARGUMENT_BUFFERS ++ [LF]) = MSL_ARGUMENT_BUFFERS)
    by reflexivity.
  repeat (split; [assumption|]).
  exact (@scenario_msl_argument_buffers sample_lower sample_argv
           (one_file (MSL_ARGUMENT_BUFFERS ++ [LF])) _ _ _ H1 H2 H3 H4).
Defined.

Lemma blank_line_is_malformed_witness :
  strip [space; LF] = [] /\
  (~ matches_pattern (strip [space; LF]) /\
   re_split PATTERN (strip [space; LF]) = [[]] /\
   body sample_lower [space; LF] no_streams = (no_streams, Raised IndexError)).
Proof.
  assert (H : strip [space; LF] = []) by reflexivity.
  split; [exact H|].
  exact (@blank_line_is_malformed sample_lower [space; LF] no_streams H).
Defined.

Lemma empty_file_run_witness :
  nth_error sample_argv 1 = Some (str "opts.txt") /\
  one_file [] (str "opts.txt") = Some [] /\
  (main sample_lower sample_argv (one_file []) no_streams
   = (no_streams, Ok None) /\
   script sample_lower sample_argv (one_file [])
   = {| out := []; err := []; uncaught := None; status := 0 |}).
Proof.
  assert (H1 : nth_error sample_argv 1 = Some (str "opts.txt")) by reflexivity.
  assert (H2 : one_file [] (str "opts.txt") = Some []) by reflexivity.
  repeat (split; [assumption|]).
  exact (@empty_file_run sample_lower sample_argv (one_file []) _ H1 H2).
Defined.

Lemma decomposition_unique_witness :
  option_token MSL_ARGUMENT_BUFFERS (str "MSL") (str "ARGUMENT_BUFFERS") /\
  (str "MSL" = category_of MSL_ARGUMENT_BUFFERS /\
   str "ARGUMENT_BUFFERS" = suffix_of MSL_ARGUMENT_BUFFERS /\
   (forall cat' suf', option_token MSL_ARGUMENT_BUFFERS cat' suf' ->
                      cat' = str "MSL" /\ suf' = str "ARGUMENT_BUFFERS") /\
   re_split PATTERN MSL_ARGUMENT_BUFFERS
   = [[]; PREFIX; str "MSL" ++ [US]; str "ARGUMENT_BUFFERS"; []] /\
   (forall run, forallb uppercase run = true ->
      ~ matches_pattern (PREFIX ++ run ++ [US]) /\
      re_split PATTERN (PREFIX ++ run ++ [US]) = [PREFIX ++ run ++ [US]])).
Proof.
  assert (H : option_token MSL_ARGUMENT_BUFFERS (str "MSL")
                           (str "ARGUMENT_BUFFERS"))
    by (repeat split; try discriminate; reflexivity).
  split; [exact H|].
  exact (@decomposition_unique MSL_ARGUMENT_BUFFERS _ _ H).
Defined.

Lemma extra_arguments_ignored_witness :
  nth_error sample_argv 1
  = nth_error (sample_argv ++ [str "--verbose"; str "other.txt"]) 1 /\
  (forall path, nth_error sample_argv 1 = Some path ->
                one_file two_lines path = one_file two_lines path) /\
  ((forall w,
       main sample_lower sample_argv (one_file two_lines) w
       = main sample_lower (sample_argv ++ [str "--verbose"; str "other.txt"])
              (one_file two_lines) w) /\
   script sample_lower sample_argv (one_file two_lines)
   = script sample_lower (sample_argv ++ [str "--verbose"; str "other.txt"])
            (one_file two_lines)).
Proof.
  assert (H1 : nth_error sample_argv 1
               = nth_error (sample_argv ++ [str "--verbose"; str "other.txt"]) 1)
    by reflexivity.
  assert (H2 : forall path, nth_error sample_argv 1 = Some path ->
                            one_file two_lines path = one_file two_lines path)
    by reflexivity.
  repeat (split; [assumption|]).
  exact (@extra_arguments_ignored sample_lower _ _ _ _ H1 H2).
Defined.

(** * Further properties of the program *)

(** ** Which lines match can be decided *)

Lemma token_newline_no_match (tok cat suf : pystr) :
  option_token tok cat suf -> ~ matches_pattern (tok ++ [LF]).
Proof.
  intros Ht (cat' & suf' & Ht').
  pose proof (match_complete Ht (or_intror eq_refl)) as H1.
  pose proof (match_complete Ht' (or_introl eq_refl)) as H2.
  rewrite app_nil_r, H1 in H2. discriminate.
Qed.

Lemma matches_pattern_dec (s : pystr) :
  matches_pattern s \/ ~ matches_pattern s.
Proof.
  destruct (re_split_cases s)
    as [(tok & cat & suf & rest & -> & Ht & [-> | ->] & _) | [H _]].
  - left. rewrite app_nil_r. now exists cat, suf.
  - right. eapply token_newline_no_match; eauto.
  - right. intros (cat & suf & Ht).
    destruct (H s cat suf [] (eq_sym (app_nil_r s)) Ht) as [Hne _].
    now apply Hne.
Qed.

(** The lines of a file are well-formed lines up to the end, or up to a
    first malformed line. *)
Lemma first_malformed_or_none (lines : list pystr) :
  Forall (fun line => matches_pattern (strip line)) lines \/
  exists good bad rest,
    lines = good ++ bad :: rest /\
    Forall (fun line => matches_pattern (strip line)) good /\
    ~ matches_pattern (strip bad).
Proof.
  induction lines as [|line lines IH]; [left; constructor|].
  destruct (matches_pattern_dec (strip line)) as [Hm | Hm].
  - destruct IH as [IH | (good & bad & rest & -> & Hg & Hb)].
    + left. now constructor.
    + right. exists (line :: good), bad, rest. repeat split; auto.
  - right. exists [], line, lines. repeat split; auto.
Qed.

Section MoreRuns.

Variable unicode_lower : pystr -> pystr.

Lemma body_stderr (line : pystr) (w : streams) :
  stderr (fst (body unicode_lower line w)) = stderr w.
Proof.
  destruct (matches_pattern_dec (strip line)) as [(cat & suf & Ht) | Hno].
  - now rewrite (body_token unicode_lower _ w Ht).
  - now rewrite body_malformed.
Qed.

Lemma for_lines_stderr (lines : list pystr) (w : streams) :
  stderr (fst (for_lines unicode_lower lines w)) = stderr w.
Proof.
  revert w; induction lines as [|line lines IH]; intros w; [reflexivity|].
  cbn [for_lines]. unfold bind.
  pose proof (body_stderr line w) as Hb.
  destruct (body unicode_lower line w) as [w' [[]|e]]; cbn [fst] in *; auto.
  now rewrite IH.
Qed.

Lemma script_with_file (argv : list pystr) (fs : filesystem)
      (path text : pystr) :
  nth_error argv 1 = Some path ->
  fs path = Some text ->
  script unicode_lower argv fs
  = match for_lines unicode_lower (readlines (translate text)) no_streams with
    | (w, Ok _) =>
        {| out := stdout w; err := stderr w; uncaught := None; status := 0 |}
    | (w, Raised e) =>
        {| out := stdout w; err := stderr w; uncaught := Some e; status := 1 |}
    end.
Proof.
  intros Harg Hfs. unfold script. fold no_streams.
  rewrite (main_with_file unicode_lower _ _ no_streams Harg Hfs).
  destruct (for_lines _ _ no_streams) as [w [[]|e]]; reflexivity.
Qed.

(** X1 (file that cannot be opened): with a path argument that names no
    readable file, [open] raises, [OSError] escapes [main], nothing is
    written to either stream by the program, and the run ends with
    status 1. *)
Theorem unreadable_file_run (argv : list pystr) (fs : filesystem) (path : pystr) :
  nth_error argv 1 = Some path ->
  fs path = None ->
  main unicode_lower argv fs no_streams = (no_streams, Raised OSError) /\
  script unicode_lower argv fs
  = {| out := []; err := []; uncaught := Some OSError; status := 1 |}.
Proof.
  intros Harg Hfs.
  assert (H : main unicode_lower argv fs no_streams = (no_streams, Raised OSError)).
  { unfold main, open. now rewrite Harg, Hfs. }
  split; [assumption|]. unfold script. fold no_streams. now rewrite H.
Qed.

(** X2 (the error stream): whatever the arguments and the files, the
    program writes to the error stream the diagnostic and a newline when
    the argument list has fewer than two entries, and nothing at all
    otherwise: no line of a file, well-formed or not, makes it write
    there. *)
Theorem error_stream_of_run (argv : list pystr) (fs : filesystem) :
  err (script unicode_lower argv fs)
  = if length argv <? 2 then str "Missing file argument." ++ [LF] else [].
Proof.
  destruct (nth_error argv 1) as [path|] eqn:Harg.
  - assert (Hlen : 1 < length argv) by (apply nth_error_Some; congruence).
    destruct (Nat.ltb_spec (length argv) 2); [lia|].
    destruct (fs path) as [text|] eqn:Hfs.
    + rewrite (script_with_file _ _ Harg Hfs).
      pose proof (for_lines_stderr (readlines (translate text)) no_streams) as H1.
      destruct (for_lines _ _ no_streams) as [w [[]|e]]; exact H1.
    + unfold script, main, open. now rewrite Harg, Hfs.
  - apply nth_error_None in Harg.
    destruct (Nat.ltb_spec (length argv) 2); [|lia].
    destruct argv as [|a [|b argv]]; simpl in *; try lia; reflexivity.
Qed.

(** X3 (success): for a path argument that names a readable file, the run
    ends with status 0 exactly when every line of the file matches the
    pattern once stripped. *)
Theorem success_iff_all_lines_match
        (argv : list pystr) (fs : filesystem) (path text : pystr) :
  nth_error argv 1 = Some path ->
  fs path = Some text ->
  (status (script unicode_lower argv fs) = 0%Z <->
   Forall (fun line => matches_pattern (strip line)) (readlines (translate text))).
Proof.
  intros Harg Hfs. rewrite (script_with_file _ _ Harg Hfs).
  destruct (first_malformed_or_none (readlines (translate text)))
    as [Hall | (good & bad & rest & E & Hg & Hb)].
  - rewrite for_lines_good by assumption. now split.
  - rewrite E, for_lines_first_malformed by assumption. split.
    + discriminate.
    + intros Hall. exfalso. apply Hb.
      rewrite Forall_forall in Hall. apply Hall.
      apply in_or_app. right. now left.
Qed.

(** X4 (every run on a file that opens and decodes): when the path
    argument names a file that opens and whose bytes decode to the text
    [text], the standard output is the blocks of the first n lines of
    that text, which all match, for an n such that either n is the number
    of lines and the run ends normally, or the line at index n does not
    match and the run ends with [IndexError].  (A file that opens and
    does not decode is no [text] at all: see the note on files.) *)
Theorem run_on_decoded_file
        (argv : list pystr) (fs : filesystem) (path text : pystr) :
  nth_error argv 1 = Some path ->
  fs path = Some text ->
  let lines := readlines (translate text) in
  let run := script unicode_lower argv fs in
  exists n,
    out run = concat (map line_block (firstn n lines)) /\
    Forall (fun line => matches_pattern (strip line)) (firstn n lines) /\
    ((n = length lines /\ uncaught run = None /\ status run = 0%Z) \/
     (exists bad, nth_error lines n = Some bad /\
                  ~ matches_pattern (strip bad) /\
                  uncaught run = Some IndexError /\ status run = 1%Z)).
Proof.
  intros Harg Hfs lines run. unfold run.
  rewrite (script_with_file _ _ Harg Hfs). fold lines.
  destruct (first_malformed_or_none lines)
    as [Hall | (good & bad & rest & E & Hg & Hb)].
  - exists (length lines). rewrite firstn_all.
    rewrite for_lines_good by assumption. cbn.
    split; [reflexivity|]. split; [assumption|]. left. auto.
  - exists (length good). rewrite E.
    rewrite for_lines_first_malformed by assumption.
    rewrite firstn_app, firstn_all, Nat.sub_diag, firstn_0, app_nil_r.
    cbn. split; [reflexivity|]. split; [assumption|].
    right. exists bad. rewrite nth_error_app2, Nat.sub_diag by lia. auto.
Qed.

End MoreRuns.

(** ** White space around a line *)

Lemma lstrip_spaces (ws s : pystr) :
  forallb isspace ws = true -> lstrip (ws ++ s) = lstrip s.
Proof.
  induction ws as [|c ws IH]; [reflexivity|].
  cbn [forallb app lstrip]. intros H.
  apply andb_true_iff in H as [Hc H]. rewrite Hc. auto.
Qed.

Lemma lstrip_nil_spaces (s : pystr) :
  lstrip s = [] -> forallb isspace s = true.
Proof.
  induction s as [|c s IH]; [reflexivity|].
  cbn [lstrip forallb]. destruct (isspace c); [auto | discriminate].
Qed.

Lemma lstrip_app (a b : pystr) :
  lstrip a <> [] -> lstrip (a ++ b) = lstrip a ++ b.
Proof.
  induction a as [|c a IH]; cbn [lstrip app]; [congruence|].
  destruct (isspace c); auto.
Qed.

Lemma lstrip_fixed (s : pystr) :
  (forall c r, s = c :: r -> isspace c = false) -> lstrip s = s.
Proof.
  destruct s as [|c s]; [reflexivity|].
  intros H. cbn [lstrip]. now rewrite (H c s eq_refl).
Qed.

Lemma lstrip_keeps_last (x : pystr) (d : char) :
  isspace d = false -> exists y, lstrip (x ++ [d]) = y ++ [d].
Proof.
  intros Hd. induction x as [|e x IH]; cbn [app lstrip].
  - rewrite Hd. now exists [].
  - destruct (isspace e); [assumption|]. now exists (e :: x).
Qed.

Lemma forallb_rev (p : char -> bool) (s : pystr) :
  forallb p (rev s) = forallb p s.
Proof.
  induction s as [|c s IH]; [reflexivity|].
  cbn [rev forallb]. rewrite forallb_app, IH. cbn [forallb].
  rewrite andb_true_r. apply andb_comm.
Qed.

Lemma rstrip_spaces (s ws : pystr) :
  forallb isspace ws = true -> rstrip (s ++ ws) = rstrip s.
Proof.
  intros H. unfold rstrip. rewrite rev_app_distr, lstrip_spaces; auto.
  now rewrite forallb_rev.
Qed.

Lemma rstrip_fixed (s : pystr) :
  (forall c r, s = r ++ [c] -> isspace c = false) -> rstrip s = s.
Proof.
  intros H. unfold rstrip. rewrite lstrip_fixed; [apply rev_involutive|].
  intros c r E. apply (H c (rev r)).
  rewrite <- (rev_involutive s), E. reflexivity.
Qed.

Lemma strip_head (s r : pystr) (c : char) :
  strip s = c :: r -> isspace c = false.
Proof.
  unfold strip, rstrip.
  destruct (lstrip s) as [|d u] eqn:E; [discriminate|].
  pose proof (@lstrip_head s u d E) as Hd.
  cbn [rev]. destruct (@lstrip_keeps_last (rev u) d Hd) as [y ->].
  rewrite rev_app_distr. cbn [rev app]. intros H; inversion H; now subst.
Qed.

Lemma strip_spaces (ws1 line ws2 : pystr) :
  forallb isspace ws1 = true ->
  forallb isspace ws2 = true ->
  strip (ws1 ++ line ++ ws2) = strip line.
Proof.
  intros H1 H2. unfold strip. rewrite lstrip_spaces by assumption.
  destruct (lstrip line) as [|c u] eqn:E.
  - rewrite <- (app_nil_r (line ++ ws2)), lstrip_spaces; [reflexivity|].
    rewrite forallb_app, H2, (@lstrip_nil_spaces line E). reflexivity.
  - rewrite lstrip_app by congruence. rewrite E. now apply rstrip_spaces.
Qed.

Section WhiteSpace.

Variable unicode_lower : pystr -> pystr.

(** X5 (white space around a line): white space before and after a line,
    of any kind and amount, does not change what the loop body does with
    the line: the same block, or the same exception. *)
Theorem surrounding_space_ignored (ws1 line ws2 : pystr) (w : streams) :
  forallb isspace ws1 = true ->
  forallb isspace ws2 = true ->
  body unicode_lower (ws1 ++ line ++ ws2) w = body unicode_lower line w.
Proof.
  intros H1 H2. unfold body. now rewrite strip_spaces.
Qed.

(** X6 (the stripped text): the text that the loop body matches and
    prints as FULL neither begins nor ends with a white-space character,
    and stripping it again leaves it as it is. *)
Theorem strip_trimmed (line : pystr) :
  (forall c r, strip line = c :: r -> isspace c = false) /\
  (forall c r, strip line = r ++ [c] -> isspace c = false) /\
  strip (strip line) = strip line.
Proof.
  split; [|split].
  - intros c r. apply strip_head.
  - intros c r. apply strip_last.
  - unfold strip at 1. rewrite lstrip_fixed.
    + apply rstrip_fixed. intros c r. apply strip_last.
    + intros c r. apply strip_head.
Qed.

End WhiteSpace.

Lemma surrounding_space_ignored_witness :
  forallb isspace [space; tab] = true /\
  forallb isspace [space; CR; LF] = true /\
  body sample_lower ([space; tab] ++ GLSL_VERSION ++ [space; CR; LF]) no_streams
  = body sample_lower GLSL_VERSION no_streams.
Proof.
  assert (H1 : forallb isspace [space; tab] = true) by reflexivity.
  assert (H2 : forallb isspace [space; CR; LF] = true) by reflexivity.
  repeat (split; [assumption|]).
  exact (@surrounding_space_ignored sample_lower [space; tab] GLSL_VERSION
           [space; CR; LF] no_streams H1 H2).
Defined.

(** ** The field name *)

Ltac char_codes :=
  unfold suffix_char, field_char, uppercase, lowercase, digit, ascii_lower in *;
  change (chr "A") with 65%N in *; change (chr "Z") with 90%N in *;
  change (chr "a") with 97%N in *; change (chr "z") with 122%N in *;
  change (chr "0") with 48%N in *; change (chr "9") with 57%N in *;
  change (chr "_") with 95%N in *.

Ltac bool_to_Prop :=
  repeat match goal with
         | H : (_ || _) = true |- _ => apply orb_true_iff in H as [H | H]
         | H : (_ && _) = true |- _ => apply andb_true_iff in H as [? H]
         | H : (_ <=? _)%N = true |- _ => apply N.leb_le in H
         | H : (_ <=? _)%N = false |- _ => apply N.leb_gt in H
         | H : (_ =? _)%N = true |- _ => apply N.eqb_eq in H
         | H : (_ && _) = false |- _ => apply andb_false_iff in H as [H | H]
         end.

Lemma suffix_char_cases (c : char) :
  suffix_char c = true ->
  (65 <= c <= 90 \/ 48 <= c <= 57 \/ c = 95)%N.
Proof. intros H. char_codes. bool_to_Prop; lia. Qed.

Lemma ascii_lower_upper (c : char) :
  (65 <= c <= 90)%N -> ascii_lower c = (c + 32)%N.
Proof.
  intros [H1 H2]. unfold ascii_lower.
  apply N.leb_le in H1, H2. now rewrite H1, H2.
Qed.

Lemma ascii_lower_other (c : char) :
  (c < 65 \/ 90 < c)%N -> ascii_lower c = c.
Proof.
  intros H. unfold ascii_lower.
  destruct (N.leb_spec 65 c), (N.leb_spec c 90); try reflexivity; lia.
Qed.

Lemma field_char_lower (c : char) :
  suffix_char c = true -> field_char (ascii_lower c) = true.
Proof.
  intros H. apply suffix_char_cases in H as [H | [H | H]].
  - rewrite ascii_lower_upper by assumption. char_codes.
    replace ((97 <=? c + 32) && (c + 32 <=? 122))%N with true; [reflexivity|].
    symmetry. apply andb_true_iff. split; apply N.leb_le; lia.
  - rewrite ascii_lower_other by lia. char_codes.
    replace ((48 <=? c) && (c <=? 57))%N with true;
      [now rewrite orb_true_r|].
    symmetry. apply andb_true_iff. split; apply N.leb_le; lia.
  - subst c. reflexivity.
Qed.

Lemma ascii_lower_inj (c d : char) :
  suffix_char c = true -> suffix_char d = true ->
  ascii_lower c = ascii_lower d -> c = d.
Proof.
  intros Hc Hd.
  apply suffix_char_cases in Hc as [Hc | [Hc | Hc]];
    apply suffix_char_cases in Hd as [Hd | [Hd | Hd]];
    rewrite ?(ascii_lower_upper Hc), ?(ascii_lower_upper Hd);
    rewrite ?(@ascii_lower_other c), ?(@ascii_lower_other d) by lia;
    lia.
Qed.

Lemma map_ascii_lower_inj (s s' : pystr) :
  forallb suffix_char s = true -> forallb suffix_char s' = true ->
  map ascii_lower s = map ascii_lower s' -> s = s'.
Proof.
  revert s'; induction s as [|c s IH]; intros [|d s']; cbn [map forallb];
    intros Hs Hs' E; try discriminate; [reflexivity|].
  apply andb_true_iff in Hs as [Hc Hs]. apply andb_true_iff in Hs' as [Hd Hs'].
  inversion E. f_equal; [now apply ascii_lower_inj | now apply IH].
Qed.

Section FieldName.

Variable unicode_lower : pystr -> pystr.

(** X7 (shape of the field name): the field name of a token is as long as
    its suffix, so it is not empty, and it is made of lower-case ASCII
    letters, digits and underscores only. *)
Theorem field_name_shape (full cat suf : pystr) :
  option_token full cat suf ->
  length (lower unicode_lower suf) = length suf /\
  lower unicode_lower suf <> [] /\
  forallb field_char (lower unicode_lower suf) = true.
Proof.
  intros (_ & _ & _ & Hne & Hsc).
  rewrite lower_suffix by assumption. split; [apply length_map|]. split.
  - destruct suf; [congruence | discriminate].
  - clear Hne. induction suf as [|c suf IH]; [reflexivity|].
    cbn [map forallb] in *. apply andb_true_iff in Hsc as [Hc Hsc].
    now rewrite field_char_lower, IH.
Qed.

(** X8 (no two suffixes share a field name): two tokens with the same
    field name have the same suffix; lower-casing loses nothing of a
    suffix. *)
Theorem field_name_determines_suffix (full cat suf full' cat' suf' : pystr) :
  option_token full cat suf ->
  option_token full' cat' suf' ->
  lower unicode_lower suf = lower unicode_lower suf' ->
  suf = suf'.
Proof.
  intros (_ & _ & _ & _ & Hs) (_ & _ & _ & _ & Hs').
  rewrite !lower_suffix by assumption.
  now apply map_ascii_lower_inj.
Qed.

End FieldName.

Lemma field_name_shape_witness :
  option_token GLSL_VERSION (str "GLSL") (str "VERSION") /\
  (length (lower sample_lower (str "VERSION")) = length (str "VERSION") /\
   lower sample_lower (str "VERSION") <> [] /\
   forallb field_char (lower sample_lower (str "VERSION")) = true).
Proof.
  assert (H : option_token GLSL_VERSION (str "GLSL") (str "VERSION"))
    by (repeat split; try discriminate; reflexivity).
  split; [exact H|].
  exact (@field_name_shape sample_lower GLSL_VERSION (str "GLSL")
           (str "VERSION") H).
Defined.

Lemma field_name_determines_suffix_witness :
  option_token GLSL_VERSION (str "GLSL") (str "VERSION") /\
  option_token (str "SPVC_COMPILER_OPTION_MSL_VERSION") (str "MSL") (str "VERSION") /\
  lower sample_lower (str "VERSION") = lower sample_lower (str "VERSION") /\
  str "VERSION" = str "VERSION".
Proof.
  assert (H1 : option_token GLSL_VERSION (str "GLSL") (str "VERSION"))
    by (repeat split; try discriminate; reflexivity).
  assert (H2 : option_token (str "SPVC_COMPILER_OPTION_MSL_VERSION")
                            (str "MSL") (str "VERSION"))
    by (repeat split; try discriminate; reflexivity).
  assert (H3 : lower sample_lower (str "VERSION")
               = lower sample_lower (str "VERSION")) by reflexivity.
  repeat (split; [assumption|]).
  exact (@field_name_determines_suffix sample_lower _ _ _ _ _ _ H1 H2 H3).
Defined.

(** ** The case mapping and the characters of the output *)

Lemma body_any_lower (lower1 lower2 : pystr -> pystr) (line : pystr) (w : streams) :
  body lower1 line w = body lower2 line w.
Proof.
  destruct (matches_pattern_dec (strip line)) as [(cat & suf & Ht) | Hno].
  - now rewrite !(body_token _ _ w Ht).
  - now rewrite !body_malformed.
Qed.

Lemma for_lines_any_lower (lower1 lower2 : pystr -> pystr)
      (lines : list pystr) (w : streams) :
  for_lines lower1 lines w = for_lines lower2 lines w.
Proof.
  revert w; induction lines as [|line lines IH]; intros w; [reflexivity|].
  cbn [for_lines]. unfold bind. rewrite (body_any_lower lower1 lower2).
  destruct (body lower2 line w) as [w' [[]|e]]; auto.
Qed.

(** X9 (lower-casing is of ASCII text only): [lower] is only ever applied
    to text of upper-case ASCII letters, digits and underscores, so the
    run is the same whatever the case mapping of other text is. *)
Theorem run_any_case_mapping (lower1 lower2 : pystr -> pystr)
        (argv : list pystr) (fs : filesystem) :
  script lower1 argv fs = script lower2 argv fs.
Proof.
  destruct (nth_error argv 1) as [path|] eqn:Harg.
  - destruct (fs path) as [text|] eqn:Hfs.
    + rewrite !(script_with_file _ _ _ Harg Hfs).
      now rewrite (for_lines_any_lower lower1 lower2).
    + unfold script, main, open. now rewrite Harg, Hfs.
  - unfold script, main. now rewrite Harg.
Qed.

Lemma isascii_app (a b : pystr) : isascii (a ++ b) = isascii a && isascii b.
Proof. apply forallb_app. Qed.

Lemma uppercase_isascii (s : pystr) :
  forallb uppercase s = true -> isascii s = true.
Proof.
  unfold isascii. induction s as [|c s IH]; [reflexivity|].
  cbn [forallb]. intros H. apply andb_true_iff in H as [Hc H].
  rewrite IH by assumption. rewrite andb_true_r.
  char_codes. bool_to_Prop. apply N.ltb_lt. lia.
Qed.

Lemma lower_isascii (s : pystr) :
  isascii s = true -> isascii (map ascii_lower s) = true.
Proof.
  unfold isascii. induction s as [|c s IH]; [reflexivity|].
  cbn [map forallb]. intros H. apply andb_true_iff in H as [Hc H].
  rewrite IH by assumption. rewrite andb_true_r.
  apply N.ltb_lt in Hc. apply N.ltb_lt. unfold ascii_lower.
  destruct (N.leb_spec 65 c), (N.leb_spec c 90); cbn [andb]; lia.
Qed.

Lemma block_isascii (full cat suf : pystr) :
  option_token full cat suf -> isascii (block full suf) = true.
Proof.
  intros (-> & _ & Hup & _ & Hsc).
  pose proof (uppercase_isascii _ Hup) as H1.
  pose proof (suffix_isascii _ Hsc) as H2.
  pose proof (lower_isascii _ H2) as H3.
  unfold block. rewrite !isascii_app, H1, H2, H3. reflexivity.
Qed.

Lemma line_blocks_isascii (lines : list pystr) :
  Forall (fun line => matches_pattern (strip line)) lines ->
  isascii (concat (map line_block lines)) = true.
Proof.
  induction 1 as [|line lines (cat & suf & Ht) _ IH]; [reflexivity|].
  cbn [map concat]. rewrite isascii_app, IH, andb_true_r.
  unfold line_block. destruct (option_token_parts Ht) as [_ <-].
  eapply block_isascii; eauto.
Qed.

Section Characters.

Variable unicode_lower : pystr -> pystr.

(** X10 (the standard output is ASCII): whatever the arguments and the
    files, and whatever characters the lines of the file hold, every
    character that the program writes to the standard output is an ASCII
    character. *)
Theorem standard_output_is_ascii (argv : list pystr) (fs : filesystem) :
  isascii (out (script unicode_lower argv fs)) = true.
Proof.
  destruct (nth_error argv 1) as [path|] eqn:Harg.
  - destruct (fs path) as [text|] eqn:Hfs.
    + rewrite (script_with_file _ _ _ Harg Hfs).
      destruct (first_malformed_or_none (readlines (translate text)))
        as [Hall | (good & bad & rest & E & Hg & Hb)].
      * rewrite for_lines_good by assumption. now apply line_blocks_isascii.
      * rewrite E, for_lines_first_malformed by assumption.
        now apply line_blocks_isascii.
    + unfold script, main, open. now rewrite Harg, Hfs.
  - unfold script, main. now rewrite Harg.
Qed.

End Characters.

(** ** Reading the file *)

Section Reading.

Variable unicode_lower : pystr -> pystr.

(** X11 ([readline]): a call splits the unread text in two without
    losing a character; the line is empty only at the end of the file, so
    a blank line does not end the loop; the line holds no newline before
    its last character, and when text is left after it, it ends with a
    newline. *)
Theorem readline_splits (file : pystr) :
  fst (readline file) ++ snd (readline file) = file /\
  (fst (readline file) = [] <-> file = []) /\
  ~ In LF (removelast (fst (readline file))) /\
  (snd (readline file) <> [] ->
   exists l, fst (readline file) = l ++ [LF]).
Proof.
  induction file as [|c file (IH1 & IH2 & IH3 & IH4)].
  - cbn. repeat split; auto; congruence.
  - rewrite readline_eq. destruct (N.eqb_spec c LF) as [-> | Hc].
    + cbn. repeat split; auto; try congruence.
      intros _. now exists [].
    + destruct (readline file) as [line rest]. cbn [fst snd] in *.
      split; [cbn; now rewrite IH1|]. split; [split; congruence|]. split.
      * destruct line as [|d line]; [cbn; tauto|].
        cbn [removelast]. fold (removelast (d :: line)).
        intros [H | H]; [congruence | contradiction].
      * intros Hrest. destruct (IH4 Hrest) as [l ->]. now exists (c :: l).
Qed.

(** X12 (the loop ends): once the rounds allowed are more than the
    characters of the file, allowing more changes nothing: the loop has
    read the whole file, one line a round, and stopped by itself. *)
Theorem while_enough_rounds (n m : nat) (file : pystr) :
  length file < n -> length file < m ->
  while unicode_lower n file = while unicode_lower m file.
Proof.
  intros Hn Hm. now rewrite !while_for_lines.
Qed.

End Reading.

Lemma while_enough_rounds_witness :
  length two_lines < 80 /\ length two_lines < 1000 /\
  while sample_lower 80 two_lines = while sample_lower 1000 two_lines.
Proof.
  assert (H1 : length two_lines < 80) by (vm_compute; lia).
  assert (H2 : length two_lines < 1000) by (vm_compute; lia).
  repeat (split; [assumption|]).
  exact (@while_enough_rounds sample_lower 80 1000 two_lines H1 H2).
Defined.

(** ** Line terminators *)

Lemma translate_eq (c : char) (s : pystr) :
  translate (c :: s)
  = if (c =? CR)%N then
      LF :: match s with
            | [] => []
            | d :: s' => if (d =? LF)%N then translate s' else translate s
            end
    else c :: translate s.
Proof. reflexivity. Qed.

Lemma one_line_cons (c : char) (l : pystr) :
  one_line (c :: l) = true ->
  (c =? CR)%N = false /\ (c =? LF)%N = false /\ one_line l = true.
Proof.
  unfold one_line. cbn [forallb]. intros H.
  apply andb_true_iff in H as [Hc H]. apply andb_true_iff in Hc as [H1 H2].
  apply negb_true_iff in H1, H2. auto.
Qed.

(** A line and its terminator, before more text that does not start with
    a newline left over from the terminator. *)
Lemma translate_line (l eol rest : pystr) :
  one_line l = true ->
  eol = [LF] \/ eol = [CR; LF] \/
  (eol = [CR] /\ forall r, rest <> LF :: r) ->
  translate (l ++ eol ++ rest) = l ++ LF :: translate rest.
Proof.
  intros Hl Heol. induction l as [|c l IH].
  - cbn [app]. destruct Heol as [-> | [-> | [-> Hr]]].
    + reflexivity.
    + reflexivity.
    + cbn [app]. rewrite translate_eq. cbn.
      destruct rest as [|d rest]; [reflexivity|].
      destruct (N.eqb_spec d LF) as [-> | _]; [|reflexivity].
      now destruct (Hr rest).
  - apply one_line_cons in Hl as (Hc1 & _ & Hl).
    cbn [app]. rewrite translate_eq, Hc1. now rewrite IH.
Qed.

Lemma join_lines_head (eol : pystr) (lines : list pystr) :
  Forall (fun l => one_line l = true) lines ->
  eol = [CR] ->
  forall r, join_lines eol lines <> LF :: r.
Proof.
  intros Hall -> r. destruct Hall as [|l lines Hl _]; [discriminate|].
  unfold join_lines. cbn [map concat].
  destruct l as [|c l]; [discriminate|].
  apply one_line_cons in Hl as (_ & Hc & _).
  cbn [app]. intros E. inversion E. subst. discriminate.
Qed.

Lemma translate_join_lines (eol : pystr) (lines : list pystr) :
  Forall (fun l => one_line l = true) lines ->
  eol = [LF] \/ eol = [CR; LF] \/ eol = [CR] ->
  translate (join_lines eol lines) = join_lines [LF] lines.
Proof.
  intros Hall Heol. induction Hall as [|l lines Hl Hall IH]; [reflexivity|].
  unfold join_lines in *. cbn [map concat].
  rewrite <- !app_assoc. rewrite translate_line; auto.
  - cbn [app]. now rewrite IH.
  - destruct Heol as [-> | [-> | ->]]; auto.
    right. right. split; [reflexivity|].
    now apply (join_lines_head Hall).
Qed.

Lemma readlines_line (l rest : pystr) :
  one_line l = true ->
  readlines (l ++ LF :: rest) = (l ++ [LF]) :: readlines rest.
Proof.
  intros Hl. induction l as [|c l IH].
  - reflexivity.
  - apply one_line_cons in Hl as (_ & Hc & Hl).
    cbn [app]. rewrite readlines_eq, Hc. now rewrite IH.
Qed.

Lemma readlines_join_lines (lines : list pystr) :
  Forall (fun l => one_line l = true) lines ->
  readlines (join_lines [LF] lines) = map (fun l => l ++ [LF]) lines.
Proof.
  induction 1 as [|l lines Hl _ IH]; [reflexivity|].
  unfold join_lines in *. cbn [map concat].
  rewrite <- app_assoc. cbn [app]. now rewrite readlines_line, IH.
Qed.

Section Terminators.

Variable unicode_lower : pystr -> pystr.

(** X13 (line terminators): a file whose lines end with [\n], with
    [\r\n] or with [\r] is read as the same lines, each ended by [\n];
    so two files with the same lines and different terminators give the
    same run. *)
Theorem line_terminator_is_irrelevant
        (argv : list pystr) (fs1 fs2 : filesystem) (path : pystr)
        (lines : list pystr) (eol1 eol2 : pystr) :
  Forall (fun l => one_line l = true) lines ->
  eol1 = [LF] \/ eol1 = [CR; LF] \/ eol1 = [CR] ->
  eol2 = [LF] \/ eol2 = [CR; LF] \/ eol2 = [CR] ->
  nth_error argv 1 = Some path ->
  fs1 path = Some (join_lines eol1 lines) ->
  fs2 path = Some (join_lines eol2 lines) ->
  readlines (translate (join_lines eol1 lines))
  = map (fun l => l ++ [LF]) lines /\
  script unicode_lower argv fs1 = script unicode_lower argv fs2.
Proof.
  intros Hall He1 He2 Harg Hfs1 Hfs2. split.
  - now rewrite translate_join_lines, readlines_join_lines.
  - rewrite (script_with_file _ _ _ Harg Hfs1), (script_with_file _ _ _ Harg Hfs2).
    now rewrite !translate_join_lines.
Qed.

End Terminators.

Lemma line_terminator_is_irrelevant_witness :
  Forall (fun l => one_line l = true) [GLSL_VERSION; MSL_ARGUMENT_BUFFERS] /\
  ([CR; LF] = [LF] \/ [CR; LF] = [CR; LF] \/ [CR; LF] = [CR]) /\
  ([CR] = [LF] \/ [CR] = [CR; LF] \/ [CR] = [CR]) /\
  nth_error sample_argv 1 = Some (str "opts.txt") /\
  one_file (join_lines [CR; LF] [GLSL_VERSION; MSL_ARGUMENT_BUFFERS]) (str "opts.txt")
  = Some (join_lines [CR; LF] [GLSL_VERSION; MSL_ARGUMENT_BUFFERS]) /\
  one_file (join_lines [CR] [GLSL_VERSION; MSL_ARGUMENT_BUFFERS]) (str "opts.txt")
  = Some (join_lines [CR] [GLSL_VERSION; MSL_ARGUMENT_BUFFERS]) /\
  (readlines (translate (join_lines [CR; LF] [GLSL_VERSION; MSL_ARGUMENT_BUFFERS]))
   = map (fun l => l ++ [LF]) [GLSL_VERSION; MSL_ARGUMENT_BUFFERS] /\
   script sample_lower sample_argv
          (one_file (join_lines [CR; LF] [GLSL_VERSION; MSL_ARGUMENT_BUFFERS]))
   = script sample_lower sample_argv
            (one_file (join_lines [CR] [GLSL_VERSION; MSL_ARGUMENT_BUFFERS]))).
Proof.
  assert (H1 : Forall (fun l => one_line l = true)
                      [GLSL_VERSION; MSL_ARGUMENT_BUFFERS])
    by (repeat constructor).
  assert (H2 : [CR; LF] = [LF] \/ [CR; LF] = [CR; LF] \/ [CR; LF] = [CR])
    by (right; left; reflexivity).
  assert (H3 : [CR] = [LF] \/ [CR] = [CR; LF] \/ [CR] = [CR])
    by (right; right; reflexivity).
  assert (H4 : nth_error sample_argv 1 = Some (str "opts.txt")) by reflexivity.
  assert (H5 : one_file (join_lines [CR; LF] [GLSL_VERSION; MSL_ARGUMENT_BUFFERS])
                        (str "opts.txt")
               = Some (join_lines [CR; LF] [GLSL_VERSION; MSL_ARGUMENT_BUFFERS]))
    by reflexivity.
  assert (H6 : one_file (join_lines [CR] [GLSL_VERSION; MSL_ARGUMENT_BUFFERS])
                        (str "opts.txt")
               = Some (join_lines [CR] [GLSL_VERSION; MSL_ARGUMENT_BUFFERS]))
    by reflexivity.
  repeat (split; [assumption|]).
  exact (@line_terminator_is_irrelevant sample_lower sample_argv _ _ _ _ _ _
           H1 H2 H3 H4 H5 H6).
Defined.

(** ** One file after another *)

Lemma translate_before_LF (t : pystr) :
  exists x, forall t2, translate (t ++ LF :: t2) = x ++ LF :: translate t2.
Proof.
  remember (length t) as n eqn:Hn. revert t Hn.
  induction n as [n IH] using lt_wf_ind. intros [|c t] Hn.
  - exists []. reflexivity.
  - cbn [length] in Hn. destruct (N.eqb_spec c CR) as [-> | Hc].
    + destruct t as [|d t].
      * exists []. reflexivity.
      * destruct (N.eqb_spec d LF) as [-> | Hd].
        -- destruct (IH (length t) ltac:(cbn [length] in Hn; lia) t eq_refl)
             as [x Hx].
           exists (LF :: x). intros t2. cbn [app].
           rewrite translate_eq. cbn. now rewrite Hx.
        -- destruct (IH (length (d :: t)) ltac:(lia) (d :: t) eq_refl)
             as [x Hx].
           exists (LF :: x). intros t2. cbn [app].
           rewrite translate_eq.
           replace (CR =? CR)%N with true by reflexivity.
           replace (d =? LF)%N with false by (symmetry; now apply N.eqb_neq).
           cbn [app] in Hx. now rewrite Hx.
    + destruct (IH (length t) ltac:(lia) t eq_refl) as [x Hx].
      exists (c :: x). intros t2. cbn [app]. rewrite translate_eq.
      replace (c =? CR)%N with false by (symmetry; now apply N.eqb_neq).
      now rewrite Hx.
Qed.

Lemma readlines_before_LF (a b : pystr) :
  readlines (a ++ LF :: b) = readlines (a ++ [LF]) ++ readlines b.
Proof.
  induction a as [|c a IH]; [reflexivity|].
  cbn [app]. rewrite !readlines_eq, IH.
  destruct (c =? LF)%N; [reflexivity|].
  destruct (readlines (a ++ [LF])) as [|l ls] eqn:E; [|reflexivity].
  exfalso. destruct a as [|d a]; cbn [app] in E.
  - discriminate.
  - destruct (readline_cons d (a ++ [LF])) as (l & r & _ & _ & _ & E').
    congruence.
Qed.

Lemma readlines_translate_app (t1 t2 : pystr) :
  readlines (translate ((t1 ++ [LF]) ++ t2))
  = readlines (translate (t1 ++ [LF])) ++ readlines (translate t2).
Proof.
  destruct (translate_before_LF t1) as [x Hx].
  rewrite <- app_assoc. cbn [app]. rewrite !Hx. cbn [translate].
  apply readlines_before_LF.
Qed.

Section Composition.

Variable unicode_lower : pystr -> pystr.

(** X14 (one file after another): for a file that ends with a newline,
    followed by the text of a second file: when the run on the first file
    succeeds, the run on the whole writes the output of the first and
    then the output of the second, and ends as the run on the second
    does; when the run on the first file fails, the run on the whole is
    that same failed run. *)
Theorem run_on_appended_files
        (argv : list pystr) (fs1 fs2 fs : filesystem) (path t1 t2 : pystr) :
  nth_error argv 1 = Some path ->
  fs1 path = Some (t1 ++ [LF]) ->
  fs2 path = Some t2 ->
  fs path = Some ((t1 ++ [LF]) ++ t2) ->
  script unicode_lower argv fs
  = if (status (script unicode_lower argv fs1) =? 0)%Z
    then {| out := out (script unicode_lower argv fs1)
                   ++ out (script unicode_lower argv fs2);
            err := [];
            uncaught := uncaught (script unicode_lower argv fs2);
            status := status (script unicode_lower argv fs2) |}
    else script unicode_lower argv fs1.
Proof.
  intros Harg H1 H2 H.
  rewrite (script_with_file _ _ _ Harg H1), (script_with_file _ _ _ Harg H2),
    (script_with_file _ _ _ Harg H).
  rewrite readlines_translate_app.
  destruct (first_malformed_or_none (readlines (translate (t1 ++ [LF]))))
    as [Hall1 | (good & bad & rest & -> & Hg & Hb)].
  - rewrite (for_lines_good _ _ Hall1). cbn [status Z.eqb].
    destruct (first_malformed_or_none (readlines (translate t2)))
      as [Hall2 | (good & bad & rest & -> & Hg & Hb)].
    + rewrite !for_lines_good; auto; [|apply Forall_app; now split].
      cbn. now rewrite map_app, concat_app.
    + rewrite app_assoc.
      rewrite !for_lines_first_malformed; auto; [|apply Forall_app; now split].
      cbn. now rewrite map_app, concat_app.
  - rewrite <- app_assoc. cbn [app].
    now rewrite !for_lines_first_malformed.
Qed.

End Composition.

Lemma run_on_appended_files_witness :
  nth_error sample_argv 1 = Some (str "opts.txt") /\
  one_file (GLSL_VERSION ++ [LF]) (str "opts.txt") = Some (GLSL_VERSION ++ [LF]) /\
  one_file malformed_second_line (str "opts.txt") = Some malformed_second_line /\
  one_file ((GLSL_VERSION ++ [LF]) ++ malformed_second_line) (str "opts.txt")
  = Some ((GLSL_VERSION ++ [LF]) ++ malformed_second_line) /\
  script sample_lower sample_argv
         (one_file ((GLSL_VERSION ++ [LF]) ++ malformed_second_line))
  = if (status (script sample_lower sample_argv
                       (one_file (GLSL_VERSION ++ [LF]))) =? 0)%Z
    then {| out := out (script sample_lower sample_argv
                               (one_file (GLSL_VERSION ++ [LF])))
                   ++ out (script sample_lower sample_argv
                                  (one_file malformed_second_line));
            err := [];
            uncaught := uncaught (script sample_lower sample_argv
                                         (one_file malformed_second_line));
            status := status (script sample_lower sample_argv
                                     (one_file malformed_second_line)) |}
    else script sample_lower sample_argv (one_file (GLSL_VERSION ++ [LF])).
Proof.
  assert (H1 : nth_error sample_argv 1 = Some (str "opts.txt")) by reflexivity.
  assert (H2 : one_file (GLSL_VERSION ++ [LF]) (str "opts.txt")
               = Some (GLSL_VERSION ++ [LF])) by reflexivity.
  assert (H3 : one_file malformed_second_line (str "opts.txt")
               = Some malformed_second_line) by reflexivity.
  assert (H4 : one_file ((GLSL_VERSION ++ [LF]) ++ malformed_second_line)
                        (str "opts.txt")
               = Some ((GLSL_VERSION ++ [LF]) ++ malformed_second_line))
    by reflexivity.
  repeat (split; [assumption|]).
  exact (@run_on_appended_files sample_lower sample_argv _ _ _ _ _ _
           H1 H2 H3 H4).
Defined.

(** ** From the output back to the tokens *)

Lemma split_at_separator (x : char) (a b r r' : pystr) :
  ~ In x a -> ~ In x b -> a ++ x :: r = b ++ x :: r' -> a = b /\ r = r'.
Proof.
  revert b; induction a as [|c a IH]; intros [|d b] Ha Hb E; cbn [app] in E.
  - inversion E. auto.
  - inversion E. subst. exfalso. apply Hb. now left.
  - inversion E. subst. exfalso. apply Ha. now left.
  - inversion E. subst.
    destruct (IH b) as [-> ->]; auto.
    + intros H. apply Ha. now right.
    + intros H. apply Hb. now right.
Qed.

Lemma token_chars (full cat suf : pystr) :
  option_token full cat suf -> forallb suffix_char full = true.
Proof.
  intros (-> & _ & Hup & _ & Hsc).
  rewrite !forallb_app, Hsc. cbn [forallb].
  replace (forallb suffix_char PREFIX) with true by reflexivity.
  replace (suffix_char US) with true by reflexivity.
  rewrite !andb_true_r. cbn [andb].
  clear - Hup. induction cat as [|c cat IH]; [reflexivity|].
  cbn [forallb] in *. apply andb_true_iff in Hup as [Hc Hup].
  rewrite IH by assumption. unfold suffix_char. now rewrite Hc.
Qed.

Lemma token_no_comma (full cat suf : pystr) :
  option_token full cat suf -> ~ In (chr ",") full.
Proof.
  intros Ht Hin. apply token_chars in Ht.
  rewrite forallb_forall in Ht. apply Ht in Hin. discriminate.
Qed.

Lemma block_then_rest (full cat suf full' cat' suf' r r' : pystr) :
  option_token full cat suf ->
  option_token full' cat' suf' ->
  block full suf ++ r = block full' suf' ++ r' ->
  full = full' /\ r = r'.
Proof.
  intros Ht Ht' E. unfold block in E.
  rewrite <- !app_assoc in E.
  do 4 apply app_inv_head in E.
  change (str ", false)]") with (chr "," :: str " false)]") in E.
  cbn [app] in E.
  apply split_at_separator in E as [-> E];
    [|eapply token_no_comma; eauto | eapply token_no_comma; eauto].
  split; [reflexivity|].
  destruct (option_token_parts Ht) as [_ ->].
  destruct (option_token_parts Ht') as [_ ->].
  apply app_inv_head in E. inversion E as [E1].
  repeat apply app_inv_head in E1. now inversion E1.
Qed.

Lemma line_blocks_inj (lines1 lines2 : list pystr) :
  Forall (fun line => matches_pattern (strip line)) lines1 ->
  Forall (fun line => matches_pattern (strip line)) lines2 ->
  concat (map line_block lines1) = concat (map line_block lines2) ->
  map strip lines1 = map strip lines2.
Proof.
  intros H1. revert lines2.
  induction H1 as [|l1 lines1 (c1 & s1 & Ht1) _ IH]; intros lines2 H2 E.
  - destruct H2 as [|l2 lines2 _ _]; [reflexivity|]. discriminate.
  - destruct H2 as [|l2 lines2 (c2 & s2 & Ht2) H2]; [discriminate|].
    cbn [map concat] in *. unfold line_block in E.
    destruct (option_token_parts Ht1) as [_ E1].
    destruct (option_token_parts Ht2) as [_ E2].
    rewrite <- E1, <- E2 in E.
    destruct (block_then_rest Ht1 Ht2 E) as [-> E'].
    f_equal. now apply IH.
Qed.

Section Recovery.

Variable unicode_lower : pystr -> pystr.

Lemma success_all_lines_match (argv : list pystr) (fs : filesystem)
      (path text : pystr) :
  nth_error argv 1 = Some path ->
  fs path = Some text ->
  status (script unicode_lower argv fs) = 0%Z ->
  Forall (fun line => matches_pattern (strip line)) (readlines (translate text)).
Proof.
  intros Harg Hfs. rewrite (script_with_file _ _ _ Harg Hfs).
  destruct (first_malformed_or_none (readlines (translate text)))
    as [Hall | (good & bad & rest & E & Hg & Hb)]; [auto|].
  rewrite E, for_lines_first_malformed by assumption. discriminate.
Qed.

(** X15 (the output determines the tokens): two successful runs that
    write the same standard output have read the same tokens, line for
    line: the stripped lines of the two files are the same list. *)
Theorem same_output_same_tokens
        (argv1 argv2 : list pystr) (fs1 fs2 : filesystem)
        (path1 path2 text1 text2 : pystr) :
  nth_error argv1 1 = Some path1 -> fs1 path1 = Some text1 ->
  nth_error argv2 1 = Some path2 -> fs2 path2 = Some text2 ->
  status (script unicode_lower argv1 fs1) = 0%Z ->
  status (script unicode_lower argv2 fs2) = 0%Z ->
  out (script unicode_lower argv1 fs1) = out (script unicode_lower argv2 fs2) ->
  map strip (readlines (translate text1)) = map strip (readlines (translate text2)).
Proof.
  intros Ha1 Hf1 Ha2 Hf2 Hs1 Hs2.
  pose proof (success_all_lines_match _ _ Ha1 Hf1 Hs1) as Hall1.
  pose proof (success_all_lines_match _ _ Ha2 Hf2 Hs2) as Hall2.
  rewrite (script_with_file _ _ _ Ha1 Hf1), (script_with_file _ _ _ Ha2 Hf2).
  rewrite !for_lines_good by assumption. cbn.
  now apply line_blocks_inj.
Qed.

End Recovery.

(** X16 (when index 3 exists): on any text, stripped or not, the list
    that [re.split] returns has an element at index 3 exactly when the
    text is a token, alone or followed by one newline that ends the text;
    the element is then the suffix of the token, without that newline. *)
Theorem third_capture_iff (s suf : pystr) :
  nth_error (re_split PATTERN s) 3 = Some suf <->
  exists cat rest,
    option_token (PREFIX ++ cat ++ [US] ++ suf) cat suf /\
    s = (PREFIX ++ cat ++ [US] ++ suf) ++ rest /\
    (rest = [] \/ rest = [LF]).
Proof.
  split.
  - intros H.
    destruct (re_split_cases s)
      as [(tok & cat & suf' & rest & -> & Ht & Hr & E) | [_ E]];
      rewrite E in H; [|discriminate].
    cbn in H. inversion H; subst suf'.
    exists cat, rest. destruct Ht as (-> & Ht). repeat split; tauto.
  - intros (cat & rest & Ht & -> & Hr).
    now rewrite (re_split_token Ht Hr).
Qed.

Lemma same_output_same_tokens_witness :
  nth_error sample_argv 1 = Some (str "opts.txt") /\
  one_file two_lines (str "opts.txt") = Some two_lines /\
  nth_error sample_argv 1 = Some (str "opts.txt") /\
  one_file ([space] ++ GLSL_VERSION ++ [LF] ++ MSL_ARGUMENT_BUFFERS ++ [tab])
           (str "opts.txt")
  = Some ([space] ++ GLSL_VERSION ++ [LF] ++ MSL_ARGUMENT_BUFFERS ++ [tab]) /\
  status (script sample_lower sample_argv (one_file two_lines)) = 0%Z /\
  status (script sample_lower sample_argv
            (one_file ([space] ++ GLSL_VERSION ++ [LF]
                       ++ MSL_ARGUMENT_BUFFERS ++ [tab]))) = 0%Z /\
  out (script sample_lower sample_argv (one_file two_lines))
  = out (script sample_lower sample_argv
           (one_file ([space] ++ GLSL_VERSION ++ [LF]
                      ++ MSL_ARGUMENT_BUFFERS ++ [tab]))) /\
  map strip (readlines (translate two_lines))
  = map strip (readlines (translate ([space] ++ GLSL_VERSION ++ [LF]
                                     ++ MSL_ARGUMENT_BUFFERS ++ [tab]))).
Proof.
  assert (H1 : nth_error sample_argv 1 = Some (str "opts.txt")) by reflexivity.
  assert (H2 : one_file two_lines (str "opts.txt") = Some two_lines)
    by reflexivity.
  assert (H3 : one_file ([space] ++ GLSL_VERSION ++ [LF]
                         ++ MSL_ARGUMENT_BUFFERS ++ [tab]) (str "opts.txt")
               = Some ([space] ++ GLSL_VERSION ++ [LF]
                       ++ MSL_ARGUMENT_BUFFERS ++ [tab])) by reflexivity.
  assert (H4 : status (script sample_lower sample_argv (one_file two_lines))
               = 0%Z) by (vm_compute; reflexivity).
  assert (H5 : status (script sample_lower sample_argv
                         (one_file ([space] ++ GLSL_VERSION ++ [LF]
                                    ++ MSL_ARGUMENT_BUFFERS ++ [tab]))) = 0%Z)
    by (vm_compute; reflexivity).
  assert (H6 : out (script sample_lower sample_argv (one_file two_lines))
               = out (script sample_lower sample_argv
                        (one_file ([space] ++ GLSL_VERSION ++ [LF]
                                   ++ MSL_ARGUMENT_BUFFERS ++ [tab]))))
    by (vm_compute; reflexivity).
  do 7 (split; [assumption|]).
  exact (@same_output_same_tokens sample_lower sample_argv sample_argv
           (one_file two_lines)
           (one_file ([space] ++ GLSL_VERSION ++ [LF]
                      ++ MSL_ARGUMENT_BUFFERS ++ [tab]))
           (str "opts.txt") (str "opts.txt") two_lines
           ([space] ++ GLSL_VERSION ++ [LF] ++ MSL_ARGUMENT_BUFFERS ++ [tab])
           H1 H2 H1 H3 H4 H5 H6).
Defined.

Lemma unreadable_file_run_witness :
  nth_error sample_argv 1 = Some (str "opts.txt") /\
  no_file (str "opts.txt") = None /\
  (main sample_lower sample_argv no_file no_streams
   = (no_streams, Raised OSError) /\
   script sample_lower sample_argv no_file
   = {| out := []; err := []; uncaught := Some OSError; status := 1 |}).
Proof.
  assert (H1 : nth_error sample_argv 1 = Some (str "opts.txt")) by reflexivity.
  assert (H2 : no_file (str "opts.txt") = None) by reflexivity.
  repeat (split; [assumption|]).
  exact (@unreadable_file_run sample_lower sample_argv no_file _ H1 H2).
Defined.

Lemma success_iff_all_lines_match_witness :
  nth_error sample_argv 1 = Some (str "opts.txt") /\
  one_file malformed_second_line (str "opts.txt") = Some malformed_second_line /\
  (status (script sample_lower sample_argv (one_file malformed_second_line)) = 0%Z
   <-> Forall (fun line => matches_pattern (strip line))
              (readlines (translate malformed_second_line))).
Proof.
  assert (H1 : nth_error sample_argv 1 = Some (str "opts.txt")) by reflexivity.
  assert (H2 : one_file malformed_second_line (str "opts.txt")
               = Some malformed_second_line) by reflexivity.
  repeat (split; [assumption|]).
  exact (@success_iff_all_lines_match sample_lower sample_argv
           (one_file malformed_second_line) _ _ H1 H2).
Defined.

Lemma run_on_decoded_file_witness :
  nth_error sample_argv 1 = Some (str "opts.txt") /\
  one_file malformed_second_line (str "opts.txt") = Some malformed_second_line /\
  (let lines := readlines (translate malformed_second_line) in
   let run := script sample_lower sample_argv (one_file malformed_second_line) in
   exists n,
     out run = concat (map line_block (firstn n lines)) /\
     Forall (fun line => matches_pattern (strip line)) (firstn n lines) /\
     ((n = length lines /\ uncaught run = None /\ status run = 0%Z) \/
      (exists bad, nth_error lines n = Some bad /\
                   ~ matches_pattern (strip bad) /\
                   uncaught run = Some IndexError /\ status run = 1%Z))).
Proof.
  assert (H1 : nth_error sample_argv 1 = Some (str "opts.txt")) by reflexivity.
  assert (H2 : one_file malformed_second_line (str "opts.txt")
               = Some malformed_second_line) by reflexivity.
  repeat (split; [assumption|]).
  exact (@run_on_decoded_file sample_lower sample_argv
           (one_file malformed_second_line) _ _ H1 H2).
Defined.

(** ** Lines that cannot match *)

Section IllFormed.

Variable unicode_lower : pystr -> pystr.

(** X17 (lines that cannot match): a line whose stripped text is shorter
    than 24 characters (a blank line, the prefix alone), or holds a
    character that is not an upper-case ASCII letter, a digit or an
    underscore (a lower-case letter, a space or a hyphen inside the
    token), does not match; when the path argument names a file that
    opens and whose bytes decode to the text [text], and such a line is
    among the lines of that text, wherever it is, the run ends with
    [IndexError] and status 1.  (A file that opens and does not decode
    is no [text] at all: see the note on files.) *)
Theorem ill_formed_line_of_decoded_file
        (argv : list pystr) (fs : filesystem) (path text line : pystr) :
  nth_error argv 1 = Some path ->
  fs path = Some text ->
  In line (readlines (translate text)) ->
  length (strip line) < 24 \/
  (exists c, In c (strip line) /\ suffix_char c = false) ->
  ~ matches_pattern (strip line) /\
  uncaught (script unicode_lower argv fs) = Some IndexError /\
  status (script unicode_lower argv fs) = 1%Z.
Proof.
  intros Harg Hfs Hin Hbad.
  assert (Hno : ~ matches_pattern (strip line)).
  { intros (cat & suf & Ht). destruct Hbad as [Hlen | (c & Hc & Hsc)].
    - pose proof (option_token_length Ht). lia.
    - pose proof (token_chars Ht) as Hall.
      rewrite forallb_forall in Hall. rewrite (Hall c Hc) in Hsc. discriminate. }
  split; [assumption|].
  rewrite (script_with_file _ _ _ Harg Hfs).
  destruct (first_malformed_or_none (readlines (translate text)))
    as [Hall | (good & bad & rest & E & Hg & Hb)].
  - exfalso. apply Hno. rewrite Forall_forall in Hall. now apply Hall.
  - rewrite E, for_lines_first_malformed by assumption. now split.
Qed.

End IllFormed.

Lemma ill_formed_line_of_decoded_file_witness :
  nth_error sample_argv 1 = Some (str "opts.txt") /\
  one_file (two_lines ++ [LF]) (str "opts.txt") = Some (two_lines ++ [LF]) /\
  In [LF] (readlines (translate (two_lines ++ [LF]))) /\
  (length (strip [LF]) < 24 \/
   (exists c, In c (strip [LF]) /\ suffix_char c = false)) /\
  (~ matches_pattern (strip [LF]) /\
   uncaught (script sample_lower sample_argv (one_file (two_lines ++ [LF])))
   = Some IndexError /\
   status (script sample_lower sample_argv (one_file (two_lines ++ [LF])))
   = 1%Z).
Proof.
  assert (H1 : nth_error sample_argv 1 = Some (str "opts.txt")) by reflexivity.
  assert (H2 : one_file (two_lines ++ [LF]) (str "opts.txt")
               = Some (two_lines ++ [LF])) by reflexivity.
  assert (H3 : In [LF] (readlines (translate (two_lines ++ [LF]))))
    by (right; right; left; reflexivity).
  assert (H4 : length (strip [LF]) < 24 \/
               (exists c, In c (strip [LF]) /\ suffix_char c = false))
    by (left; vm_compute; lia).
  do 4 (split; [assumption|]).
  exact (@ill_formed_line_of_decoded_file sample_lower sample_argv
           (one_file (two_lines ++ [LF])) (str "opts.txt")
           (two_lines ++ [LF]) [LF] H1 H2 H3 H4).
Defined.
